(** * Signal key-unwrapping pipeline and chat analytics: model and properties

    A shallow embedding of [decrypt_key.py] (the two-stage key unwrapping
    script), [app/analytics.py] (the [SignalAnalytics] queries) and
    [app/main.py] (the two upload handlers), with the library calls the
    script relies on:

    - [Crypto.Cipher.AES] in [MODE_GCM] (pycryptodome) is modelled by the
      algorithms it implements, FIPS-197 for the block cipher and NIST
      SP 800-38D for the mode, together with the argument checks of the
      library's constructor;
    - the operating system, the file system, the standard input, [json],
      [base64], [bytes.fromhex], [os.path.join] and [win32crypt] are fields
      of a [World] record: the script's behaviour is stated for every world;
    - a Python [bytes] object is a [list byte]; a Python [str] is the
      [string] of its UTF-8 encoding, so that [bytes.decode('utf-8')] is a
      validity check and [str.encode('utf-8')] is the identity on the
      underlying bytes; [String.length] then counts bytes, and [py_len]
      counts characters as [len] does.

    Resource limits (memory, the 2^32-block limit of the library's counter)
    are outside the model. *)

From Stdlib Require Import NArith ZArith String Ascii Bool Lia List.
From Stdlib Require Import Init.Byte Strings.Byte DecimalString.
From Stdlib Require Import Sorted Permutation.
Import ListNotations.
Local Open Scope string_scope.
Local Open Scope list_scope.
Local Open Scope N_scope.

(** ** Bytes *)

Definition bytes := list byte.

(** The bytes object of an ASCII literal, [b'...']. *)
Definition b (s : string) : bytes := list_byte_of_string s.

Definition byte_of_N (n : N) : byte :=
  match Byte.of_N (n mod 256) with
  | Some x => x
  | None => x00
  end.

Definition bxor (x y : byte) : byte :=
  byte_of_N (N.lxor (Byte.to_N x) (Byte.to_N y)).

(** Bytewise exclusive or, as long as the shorter argument. *)
Fixpoint xor_bytes (u v : bytes) : bytes :=
  match u, v with
  | x :: u', y :: v' => bxor x y :: xor_bytes u' v'
  | _, _ => []
  end.

Fixpoint bytes_eqb (u v : bytes) : bool :=
  match u, v with
  | [], [] => true
  | x :: u', y :: v' => Byte.eqb x y && bytes_eqb u' v'
  | _, _ => false
  end.

Fixpoint N_of_bytes_acc (acc : N) (bs : bytes) : N :=
  match bs with
  | [] => acc
  | x :: bs' => N_of_bytes_acc (acc * 256 + Byte.to_N x) bs'
  end.

(** [Crypto.Util.number.bytes_to_long]: the big-endian integer of a byte
    string. *)
Definition bytes_to_long (bs : bytes) : N := N_of_bytes_acc 0 bs.

(** [Crypto.Util.number.long_to_bytes n k] for [n < 256^k]: the [k]-byte
    big-endian representation. *)
Fixpoint long_to_bytes (k : nat) (n : N) : bytes :=
  match k with
  | O => []
  | S k' => long_to_bytes k' (n / 256) ++ [byte_of_N n]
  end.

(** ** Python slicing

    [l[lo:hi]] with step 1: a negative index counts from the end, and both
    ends are clamped to the sequence. *)

Definition norm_index (len i : Z) : Z :=
  if (i <? 0)%Z then Z.max 0 (len + i) else Z.min i len.

Definition py_slice {A : Type} (lo hi : option Z) (l : list A) : list A :=
  let len := Z.of_nat (length l) in
  let i := match lo with None => 0%Z | Some i => norm_index len i end in
  let j := match hi with None => len | Some j => norm_index len j end in
  firstn (Z.to_nat (j - i)) (skipn (Z.to_nat i) l).

(** ** UTF-8

    The strict decoder of [bytes.decode('utf-8')]: shortest forms only, no
    surrogates, nothing above U+10FFFF. *)

Definition in_range (lo hi : N) (x : byte) : bool :=
  (lo <=? Byte.to_N x) && (Byte.to_N x <=? hi).

Definition is_cont (x : byte) : bool := in_range 128 191 x.

Fixpoint utf8_valid (bs : bytes) : bool :=
  match bs with
  | [] => true
  | b0 :: r0 =>
      if Byte.to_N b0 <? 128 then utf8_valid r0
      else if in_range 194 223 b0 then
        match r0 with
        | b1 :: r1 => is_cont b1 && utf8_valid r1
        | _ => false
        end
      else if in_range 224 239 b0 then
        match r0 with
        | b1 :: b2 :: r2 =>
            (if Byte.to_N b0 =? 224 then in_range 160 191 b1
             else if Byte.to_N b0 =? 237 then in_range 128 159 b1
             else is_cont b1)
            && is_cont b2 && utf8_valid r2
        | _ => false
        end
      else if in_range 240 244 b0 then
        match r0 with
        | b1 :: b2 :: b3 :: r3 =>
            (if Byte.to_N b0 =? 240 then in_range 144 191 b1
             else if Byte.to_N b0 =? 244 then in_range 128 143 b1
             else is_cont b1)
            && is_cont b2 && is_cont b3 && utf8_valid r3
        | _ => false
        end
      else false
  end.

(** The same decoder with its errors, as CPython reports them.  At the head
    of a byte string it finds a well-formed sequence of [n] bytes, or an
    error on [n] bytes with a reason. *)
Inductive utf8_head : Type :=
| WellFormed (n : nat)
| Malformed (n : nat) (reason : string).

Definition utf8_head_of (b0 : byte) (r0 : bytes) : utf8_head :=
  if Byte.to_N b0 <? 128 then WellFormed 1
  else if in_range 194 223 b0 then
    match r0 with
    | [] => Malformed 1 "unexpected end of data"
    | b1 :: _ =>
        if is_cont b1 then WellFormed 2
        else Malformed 1 "invalid continuation byte"
    end
  else if in_range 224 239 b0 then
    match r0 with
    | [] => Malformed 1 "unexpected end of data"
    | b1 :: r1 =>
        if negb (if Byte.to_N b0 =? 224 then in_range 160 191 b1
                 else if Byte.to_N b0 =? 237 then in_range 128 159 b1
                 else is_cont b1)
        then Malformed 1 "invalid continuation byte"
        else match r1 with
             | [] => Malformed 2 "unexpected end of data"
             | b2 :: _ =>
                 if is_cont b2 then WellFormed 3
                 else Malformed 2 "invalid continuation byte"
             end
    end
  else if in_range 240 244 b0 then
    match r0 with
    | [] => Malformed 1 "unexpected end of data"
    | b1 :: r1 =>
        if negb (if Byte.to_N b0 =? 240 then in_range 144 191 b1
                 else if Byte.to_N b0 =? 244 then in_range 128 143 b1
                 else is_cont b1)
        then Malformed 1 "invalid continuation byte"
        else match r1 with
             | [] => Malformed 2 "unexpected end of data"
             | b2 :: r2 =>
                 if negb (is_cont b2)
                 then Malformed 2 "invalid continuation byte"
                 else match r2 with
                      | [] => Malformed 3 "unexpected end of data"
                      | b3 :: _ =>
                          if is_cont b3 then WellFormed 4
                          else Malformed 3 "invalid continuation byte"
                      end
             end
    end
  else Malformed 1 "invalid start byte".

(** The first error of the strict decoder, as UnicodeDecodeError carries it:
    [start], [end] and [reason]. *)
Fixpoint utf8_error_from (fuel pos : nat) (bs : bytes)
  : option (nat * nat * string) :=
  match fuel, bs with
  | S fuel', b0 :: r0 =>
      match utf8_head_of b0 r0 with
      | WellFormed n => utf8_error_from fuel' (pos + n) (skipn n bs)
      | Malformed n reason => Some (pos, pos + n, reason)%nat
      end
  | _, _ => None
  end.

Definition utf8_error (bs : bytes) : option (nat * nat * string) :=
  utf8_error_from (length bs) 0 bs.

(** [bytes.decode('utf-8', 'ignore')]: the bytes of every error are dropped
    and decoding goes on after them. *)
Fixpoint utf8_ignore_from (fuel : nat) (bs : bytes) : bytes :=
  match fuel, bs with
  | S fuel', b0 :: r0 =>
      match utf8_head_of b0 r0 with
      | WellFormed n => firstn n bs ++ utf8_ignore_from fuel' (skipn n bs)
      | Malformed n _ => utf8_ignore_from fuel' (skipn n bs)
      end
  | _, _ => []
  end.

Definition decode_utf8_ignore (bs : bytes) : string :=
  string_of_list_byte (utf8_ignore_from (length bs) bs).

(** [len(s)] of a [str]: the number of its code points, which in the UTF-8
    encoding are the bytes that are not continuation bytes. *)
Definition py_len (s : string) : nat :=
  length (filter (fun x => negb (is_cont x)) (list_byte_of_string s)).

(** ** Exceptions

    The exceptions the script can see.  Those raised with a formatted
    message carry the data the message is built from. *)

Inductive exn : Type :=
| UnexpectedHeader (header : bytes)
    (* ValueError("Unexpected header format. ... but got <header>.") *)
| NonceEmpty             (* ValueError("Nonce cannot be empty") *)
| IncorrectKeyLength (n : nat)
    (* ValueError("Incorrect AES key length (n bytes)") *)
| MacCheckFailed         (* ValueError("MAC check failed") *)
| UnicodeDecodeError (input : bytes)
| TypeError (msg : string)
| KeyError (key : string)
| PyError (cls msg : string).   (* any other exception, raised by the world *)

(** *** The text of an exception *)

(** ["%d" % n]. *)
Definition dec (n : nat) : string := NilEmpty.string_of_uint (Nat.to_uint n).

Definition hex_char (n : N) : ascii :=
  ascii_of_N (if n <? 10 then 48 + n else 87 + n).

(** ["%02x" % x]. *)
Definition hex2 (x : byte) : string :=
  String (hex_char (Byte.to_N x / 16))
         (String (hex_char (Byte.to_N x mod 16)) "").

(** [str(e)] for a UnicodeDecodeError of the utf-8 codec: one byte is named
    only when the error is one byte long. *)
Definition unicode_decode_error_text
           (start stop : nat) (reason : string) (x : byte) : string :=
  if Nat.eqb stop (S start) then
    ("'utf-8' codec can't decode byte 0x" ++ hex2 x ++ " in position "
       ++ dec start ++ ": " ++ reason)%string
  else
    ("'utf-8' codec can't decode bytes in position " ++ dec start ++ "-"
       ++ dec (stop - 1) ++ ": " ++ reason)%string.

(** [str(e)] for the exceptions raised inside [decrypt_db_key]: the
    [ValueError] of the header test, those of the cipher, and the
    UnicodeDecodeError of [decode]. *)
Definition unwrap_error_text (e : exn) : option string :=
  match e with
  | UnexpectedHeader header =>
      Some ("Unexpected header format. Expected 'v10' or 'v11', but got "
              ++ decode_utf8_ignore header ++ ".")%string
  | NonceEmpty => Some "Nonce cannot be empty"
  | IncorrectKeyLength n =>
      Some ("Incorrect AES key length (" ++ dec n ++ " bytes)")%string
  | MacCheckFailed => Some "MAC check failed"
  | UnicodeDecodeError input =>
      match utf8_error input with
      | Some (start, stop, reason) =>
          Some (unicode_decode_error_text start stop reason
                                          (nth start input x00))
      | None => None
      end
  | _ => None
  end.

(** ** The AES block cipher (FIPS-197)

    Bytes are numbers below 256 inside the cipher; the state is the list of
    its 16 bytes in input order, column after column. *)

Module AES.

(** Multiplication by x in GF(2^8), modulo x^8 + x^4 + x^3 + x + 1. *)
Definition xtime (a : N) : N :=
  let s := N.shiftl a 1 in
  if N.testbit a 7 then N.lxor (N.land s 255) 27 else s.

Fixpoint gmul_aux (n : nat) (a c acc : N) : N :=
  match n with
  | O => acc
  | S n' =>
      gmul_aux n' (xtime a) (N.shiftr c 1)
               (if N.testbit c 0 then N.lxor acc a else acc)
  end.

Definition gmul (a c : N) : N := gmul_aux 8 a c 0.

Definition gsq (a : N) : N := gmul a a.

(** [a^254]: the multiplicative inverse, with 0 sent to 0. *)
Definition ginv (a : N) : N :=
  let a2 := gsq a in
  let a4 := gsq a2 in
  let a8 := gsq a4 in
  let a16 := gsq a8 in
  let a32 := gsq a16 in
  let a64 := gsq a32 in
  let a128 := gsq a64 in
  gmul a128 (gmul a64 (gmul a32 (gmul a16 (gmul a8 (gmul a4 a2))))).

Definition rotl8 (a k : N) : N :=
  N.land (N.lor (N.shiftl a k) (N.shiftr a (8 - k))) 255.

(** The S-box: inversion followed by the affine map (FIPS-197, 5.1.1). *)
Definition sbox_formula (a : N) : N :=
  let s := ginv a in
  N.lxor
    (N.lxor (N.lxor (N.lxor (N.lxor s (rotl8 s 1)) (rotl8 s 2)) (rotl8 s 3))
            (rotl8 s 4))
    99.

Definition sbox_table : list N :=
  Eval vm_compute in map (fun i => sbox_formula (N.of_nat i)) (seq 0 256).

Definition sbox (a : N) : N := nth (N.to_nat a) sbox_table 0.

Definition state := list N.

Definition sub_bytes (s : state) : state := map sbox s.

(** Row [r] of the state is rotated left by [r] columns. *)
Definition shift_rows_perm : list nat :=
  [0; 5; 10; 15; 4; 9; 14; 3; 8; 13; 2; 7; 12; 1; 6; 11]%nat.

Definition shift_rows (s : state) : state :=
  map (fun i => nth i s 0) shift_rows_perm.

Definition mix_column (a0 a1 a2 a3 : N) : list N :=
  [ N.lxor (N.lxor (N.lxor (gmul 2 a0) (gmul 3 a1)) a2) a3;
    N.lxor (N.lxor (N.lxor a0 (gmul 2 a1)) (gmul 3 a2)) a3;
    N.lxor (N.lxor (N.lxor a0 a1) (gmul 2 a2)) (gmul 3 a3);
    N.lxor (N.lxor (N.lxor (gmul 3 a0) a1) a2) (gmul 2 a3) ].

Fixpoint mix_columns (s : state) : state :=
  match s with
  | a0 :: a1 :: a2 :: a3 :: s' => mix_column a0 a1 a2 a3 ++ mix_columns s'
  | _ => []
  end.

Fixpoint xor_state (u v : list N) : list N :=
  match u, v with
  | x :: u', y :: v' => N.lxor x y :: xor_state u' v'
  | _, _ => []
  end.

Definition add_round_key (s k : state) : state := xor_state s k.

(** Key expansion (FIPS-197, 5.2).  A word is a list of four bytes; the
    schedule under construction is kept most recent word first. *)
Definition word := list N.

Definition rot_word (w : word) : word :=
  match w with
  | a :: w' => w' ++ [a]
  | [] => []
  end.

Definition sub_word (w : word) : word := map sbox w.

Fixpoint rcon (j : nat) : N :=
  match j with
  | O => 0
  | S O => 1
  | S j' => xtime (rcon j')
  end.

Fixpoint words_of (ks : list N) : list word :=
  match ks with
  | a0 :: a1 :: a2 :: a3 :: ks' => [a0; a1; a2; a3] :: words_of ks'
  | _ => []
  end.

Definition next_word (Nk i : nat) (rev_w : list word) : word :=
  let prev := nth 0 rev_w [] in
  let temp :=
    if Nat.eqb (i mod Nk) 0 then
      xor_state (sub_word (rot_word prev)) [rcon (i / Nk); 0; 0; 0]
    else if Nat.ltb 6 Nk && Nat.eqb (i mod Nk) 4 then sub_word prev
    else prev in
  xor_state (nth (Nk - 1) rev_w []) temp.

Fixpoint expand (n Nk i : nat) (rev_w : list word) : list word :=
  match n with
  | O => rev_w
  | S n' => expand n' Nk (S i) (next_word Nk i rev_w :: rev_w)
  end.

Definition key_expansion (key : list N) : list word :=
  let Nk := (length key / 4)%nat in
  let Nr := (Nk + 6)%nat in
  rev (expand (4 * (Nr + 1) - Nk) Nk Nk (rev (words_of key))).

Fixpoint round_keys (ws : list word) : list state :=
  match ws with
  | w0 :: w1 :: w2 :: w3 :: ws' => (w0 ++ w1 ++ w2 ++ w3) :: round_keys ws'
  | _ => []
  end.

Definition round (s k : state) : state :=
  add_round_key (mix_columns (shift_rows (sub_bytes s))) k.

Definition final_round (s k : state) : state :=
  add_round_key (shift_rows (sub_bytes s)) k.

Fixpoint rounds (s : state) (ks : list state) : state :=
  match ks with
  | [] => s
  | [k] => final_round s k
  | k :: ks' => rounds (round s k) ks'
  end.

Definition cipher (ks : list state) (block : state) : state :=
  match ks with
  | [] => block
  | k0 :: ks' => rounds (add_round_key block k0) ks'
  end.

(** [AES.key_size = (16, 24, 32)]: the key lengths the library accepts. *)
Definition key_size_ok (key : bytes) : bool :=
  match length key with
  | 16%nat | 24%nat | 32%nat => true
  | _ => false
  end.

Definition schedule (key : bytes) : list state :=
  round_keys (key_expansion (map Byte.to_N key)).

(** One block under an expanded key; a block is the 128-bit big-endian
    integer of its 16 bytes. *)
Definition encrypt_block (ks : list state) (block : N) : N :=
  bytes_to_long
    (map byte_of_N (cipher ks (map Byte.to_N (long_to_bytes 16 block)))).

End AES.

(** ** Galois/Counter Mode (NIST SP 800-38D), as [Crypto.Cipher.AES] with
    [MODE_GCM] runs it: no associated data, a 16-byte tag. *)

Module GCM.

Definition R : N := N.shiftl 225 120.

(** Multiplication in GF(2^128) (SP 800-38D, Algorithm 1); the leftmost
    bit of a block is the coefficient of degree 0. *)
Fixpoint gf_mul_aux (n : nat) (x v z : N) : N :=
  match n with
  | O => z
  | S n' =>
      gf_mul_aux n' x
        (if N.testbit v 0 then N.lxor (N.shiftr v 1) R else N.shiftr v 1)
        (if N.testbit x (N.of_nat n') then N.lxor z v else z)
  end.

Definition gf_mul (x y : N) : N := gf_mul_aux 128 x y 0.

Definition pad16 (data : bytes) : bytes :=
  data ++ repeat x00 ((16 - length data mod 16) mod 16).

Fixpoint ghash_blocks (n : nat) (h y : N) (data : bytes) : N :=
  match n with
  | O => y
  | S n' =>
      ghash_blocks n' h
        (gf_mul (N.lxor y (bytes_to_long (firstn 16 data))) h)
        (skipn 16 data)
  end.

(** GHASH of a byte string whose length is a multiple of 16. *)
Definition ghash (h : N) (data : bytes) : N :=
  ghash_blocks (length data / 16) h 0 data.

(** The cipher object: the expanded key, the hash subkey and the
    pre-counter block J0. *)
Record t : Type := mk { ks : list AES.state; hash_subkey : N; j0 : N }.

Definition derive_j0 (h : N) (nonce : bytes) : N :=
  if Nat.eqb (length nonce) 12 then bytes_to_long nonce * 2 ^ 32 + 1
  else
    let fill := ((16 - length nonce mod 16) mod 16 + 8)%nat in
    ghash h (nonce ++ repeat x00 fill
                   ++ long_to_bytes 8 (8 * N.of_nat (length nonce))).

(** [AES.new(key, AES.MODE_GCM, nonce=nonce)]: the mode rejects an empty
    nonce, then the block cipher rejects a key of the wrong length. *)
Definition new (key nonce : bytes) : exn + t :=
  if Nat.eqb (length nonce) 0 then inl NonceEmpty
  else if negb (AES.key_size_ok key)
       then inl (IncorrectKeyLength (length key))
  else
    let ks := AES.schedule key in
    let h := AES.encrypt_block ks 0 in
    inr (mk ks h (derive_j0 h nonce)).

(** Counter block number [i]: the first 12 bytes of J0, then the last
    four plus [1 + i], modulo 2^32. *)
Definition counter_block (c : t) (i : N) : N :=
  N.shiftl (N.shiftr (j0 c) 32) 32 + (j0 c + 1 + i) mod 2 ^ 32.

Definition keystream_block (c : t) (i : N) : bytes :=
  long_to_bytes 16 (AES.encrypt_block (ks c) (counter_block c i)).

Fixpoint ctr (n : nat) (c : t) (i : N) (data : bytes) : bytes :=
  match n with
  | O => []
  | S n' =>
      xor_bytes (firstn 16 data) (keystream_block c i)
        ++ ctr n' c (i + 1) (skipn 16 data)
  end.

(** Counter-mode encryption, which is also decryption. *)
Definition crypt (c : t) (data : bytes) : bytes :=
  ctr ((length data + 15) / 16) c 0 data.

(** The tag of a ciphertext: GHASH of the padded ciphertext and the two
    bit lengths, masked with the encryption of J0. *)
Definition compute_mac (c : t) (ct : bytes) : bytes :=
  let s := ghash (hash_subkey c)
             (pad16 ct ++ long_to_bytes 8 0
                       ++ long_to_bytes 8 (8 * N.of_nat (length ct))) in
  long_to_bytes 16 (N.lxor (AES.encrypt_block (ks c) (j0 c)) s).

Definition encrypt_and_digest (c : t) (pt : bytes) : bytes * bytes :=
  let ct := crypt c pt in (ct, compute_mac c ct).

(** [cipher.decrypt_and_verify(ciphertext, tag)]: the plaintext is
    computed, then the received tag is compared with the computed one. *)
Definition decrypt_and_verify (c : t) (ct tag : bytes) : exn + bytes :=
  let pt := crypt c ct in
  if bytes_eqb (compute_mac c ct) tag then inr pt else inl MacCheckFailed.

End GCM.

(** ** Effects of the script

    What a run does to the outside is recorded as a trace of events, in
    program order: lines printed, the environment and files read, and every
    call into the platform protector and into the cipher. *)

Record dpapi_args : Type := mk_dpapi_args {
  DataIn : bytes;
  OptionalEntropy : option bytes;
  Reserved : option unit;
  PromptStruct : option unit;
  Flags : Z
}.

Inductive event : Type :=
| Print (line : string)                     (* print("...") *)
| PrintExn (prefix : string) (e : exn)      (* print(f"...{e}") *)
| PrintKey (key : string)                   (* print(final_key) *)
| Input (prompt : string)                   (* input("...") *)
| GetEnv (name : string)                    (* os.getenv(name) *)
| OpenRead (path : string)                  (* open(path, 'r') *)
| JsonLoad (text : string)                  (* json.load(f) *)
| B64Decode (s : string)                    (* base64.b64decode(s) *)
| FromHex (s : string)                      (* bytes.fromhex(s) *)
| CryptUnprotectData (args : dpapi_args)    (* win32crypt.CryptUnprotectData *)
| AESNew (key nonce : bytes)                (* AES.new(key, MODE_GCM, nonce) *)
| DecryptAndVerify (ciphertext tag : bytes) (* cipher.decrypt_and_verify *).

(** A computation yields its trace and either an exception or a value. *)
Definition M (A : Type) : Type := list event * (exn + A).

Definition ret {A : Type} (a : A) : M A := ([], inr a).

Definition raise {A : Type} (e : exn) : M A := ([], inl e).

Definition bind {A B : Type} (m : M A) (k : A -> M B) : M B :=
  match m with
  | (tr, inl e) => (tr, inl e)
  | (tr, inr a) => let (tr', r) := k a in (tr ++ tr', r)
  end.

Definition emit (ev : event) : M unit := ([ev], inr tt).

(** A call into the outside: the event, then the outcome. *)
Definition call {A : Type} (ev : event) (r : exn + A) : M A := ([ev], r).

(** [try: body except Exception as e: handler(e)]. *)
Definition try_except {A : Type} (body : M A) (handler : exn -> M A) : M A :=
  match body with
  | (tr, inl e) => let (tr', r) := handler e in (tr ++ tr', r)
  | (tr, inr a) => (tr, inr a)
  end.

Definition trace {A : Type} (m : M A) : list event := fst m.

Definition outcome {A : Type} (m : M A) : exn + A := snd m.

Declare Scope monad_scope.
Delimit Scope monad_scope with monad.
Notation "x <- m ;; k" := (bind m (fun x => k))
  (at level 61, m at next level, right associativity) : monad_scope.
Notation "m ;; k" := (bind m (fun _ => k))
  (at level 61, right associativity) : monad_scope.
Local Open Scope monad_scope.

(** ** The world of the script *)

#[local] Set Warnings "-register-all".

Inductive json : Type :=
| JNull
| JBool (v : bool)
| JNumber (repr : string)
| JString (s : string)
| JArray (items : list json)
| JObject (members : list (string * json)).

Record World : Type := mk_World {
  getenv : string -> option string;
  path_join : string -> list string -> string;
  open_read : string -> exn + string;
  json_loads : string -> exn + json;
  b64decode : string -> exn + bytes;
  fromhex : string -> exn + bytes;
  unprotect : dpapi_args -> exn + (string * bytes);
  input : string -> exn + string
}.

Fixpoint members_get (k : string) (ms : list (string * json)) : option json :=
  match ms with
  | [] => None
  | (k', v) :: ms' => if String.eqb k k' then Some v else members_get k ms'
  end.

(** [v[k]] for a string key [k]. *)
Definition getitem (v : json) (k : string) : M json :=
  match v with
  | JObject ms =>
      match members_get k ms with
      | Some x => ret x
      | None => raise (KeyError k)
      end
  | _ => raise (TypeError "indices must be integers or the object is not subscriptable")
  end.

(** ** decrypt_key.py *)

Definition get_appdata_path (w : World) (local : bool) : M (option string) :=
  if local then call (GetEnv "LOCALAPPDATA") (inr (getenv w "LOCALAPPDATA"))
  else call (GetEnv "APPDATA") (inr (getenv w "APPDATA")).

(** [os.path.join(dir, 'Signal', name)]; a missing directory is [None] and
    makes the join raise. *)
Definition signal_file (w : World) (dir : option string) (name : string)
  : M string :=
  match dir with
  | Some d => ret (path_join w d ["Signal"; name])
  | None => raise (TypeError "expected str, bytes or os.PathLike object, not NoneType")
  end.

(** [with open(path, 'r', encoding='utf-8') as f: json.load(f)]. *)
Definition load_json (w : World) (path : string) : M json :=
  text <- call (OpenRead path) (open_read w path) ;;
  call (JsonLoad text) (json_loads w text).

Definition str_arg (v : json) : M string :=
  match v with
  | JString s => ret s
  | _ => raise (TypeError "argument must be str")
  end.

Definition get_master_key (w : World) : M (option bytes) :=
  emit (Print "-> Finding and decrypting master key...") ;;
  try_except
    (dir <- get_appdata_path w false ;;
     local_state_path <- signal_file w dir "Local State" ;;
     local_state <- load_json w local_state_path ;;
     os_crypt <- getitem local_state "os_crypt" ;;
     b64_master_key <- getitem os_crypt "encrypted_key" ;;
     s <- str_arg b64_master_key ;;
     encrypted_master_key_bytes <- call (B64Decode s) (b64decode w s) ;;
     let encrypted_master_key :=
       py_slice (Some 5%Z) None encrypted_master_key_bytes in
     let args := mk_dpapi_args encrypted_master_key None None None 0 in
     r <- call (CryptUnprotectData args) (unprotect w args) ;;
     let master_key := snd r in
     emit (Print "   [SUCCESS] Master key decrypted.") ;;
     ret (Some master_key))
    (fun e =>
       emit (PrintExn "   [ERROR] Failed to get master key: " e) ;;
       ret None).

Definition get_wrapped_db_key (w : World) : M (option bytes) :=
  emit (Print "-> Finding wrapped database key...") ;;
  try_except
    (dir <- get_appdata_path w false ;;
     config_path <- signal_file w dir "config.json" ;;
     config <- load_json w config_path ;;
     wrapped_key_hex <- getitem config "encryptedKey" ;;
     s <- str_arg wrapped_key_hex ;;
     wrapped_key_bytes <- call (FromHex s) (fromhex w s) ;;
     emit (Print "   [SUCCESS] Found and decoded wrapped key from config.json.") ;;
     ret (Some wrapped_key_bytes))
    (fun e =>
       emit (PrintExn "   [ERROR] Failed to get wrapped database key: " e) ;;
       ret None).

(** [bytes.decode('utf-8')]. *)
Definition decode_utf8 (bs : bytes) : M string :=
  if utf8_valid bs then ret (string_of_list_byte bs)
  else raise (UnicodeDecodeError bs).

Definition header_ok (header : bytes) : bool :=
  bytes_eqb header (b "v10") || bytes_eqb header (b "v11").

Definition decrypt_error_line : string :=
  "   [ERROR] Failed to decrypt final key. The MAC tag may have failed, indicating corrupt data or a wrong master key.".

Definition decrypt_db_key (master_key wrapped_key : bytes)
  : M (option string) :=
  emit (Print "-> Decrypting final database key with AES-256-GCM...") ;;
  try_except
    (let header := py_slice None (Some 3%Z) wrapped_key in
     let nonce := py_slice (Some 3%Z) (Some 15%Z) wrapped_key in
     let ciphertext_with_tag := py_slice (Some 15%Z) None wrapped_key in
     (if negb (header_ok header) then raise (UnexpectedHeader header)
      else ret tt) ;;
     let tag := py_slice (Some (-16)%Z) None ciphertext_with_tag in
     let ciphertext := py_slice None (Some (-16)%Z) ciphertext_with_tag in
     cipher <- call (AESNew master_key nonce) (GCM.new master_key nonce) ;;
     decrypted_key_bytes <-
       call (DecryptAndVerify ciphertext tag)
            (GCM.decrypt_and_verify cipher ciphertext tag) ;;
     final_key_hex <- decode_utf8 decrypted_key_bytes ;;
     emit (Print "   [SUCCESS] Final database key decrypted.") ;;
     ret (Some ("0x" ++ final_key_hex)%string))
    (fun e =>
       emit (Print decrypt_error_line) ;;
       emit (PrintExn "   Details: " e) ;;
       ret None).

Definition nl (s : string) : string := String (ascii_of_nat 10) s.

Definition banner : list event :=
  [ Print "========================================";
    Print "Signal Desktop Decryption Tool (June 2025)";
    Print "========================================" ].

Definition report (final_key : string) : list event :=
  [ Print (nl "----------------------------------------");
    Print "DECRYPTION COMPLETE!";
    Print "Your Signal database key is:";
    PrintKey final_key;
    Print "----------------------------------------" ].

Definition footer : list event :=
  [ Print (nl "Script finished."); Input "Press Enter to exit." ].

Fixpoint emit_all (evs : list event) : M unit :=
  match evs with
  | [] => ret tt
  | ev :: evs' => emit ev ;; emit_all evs'
  end.

(** The [if __name__ == "__main__":] block.  [if x:] on [None] or a
    sequence takes the branch when [x] is a non-empty sequence.  The last
    statement, [input(...)], stands outside every [try]: what it raises (an
    EOFError at the end of the input) leaves the script. *)
Definition main (w : World) : M unit :=
  emit_all banner ;;
  master_key <- get_master_key w ;;
  match master_key with
  | Some ((_ :: _) as master_key) =>
      wrapped_key <- get_wrapped_db_key w ;;
      match wrapped_key with
      | Some ((_ :: _) as wrapped_key) =>
          final_key <- decrypt_db_key master_key wrapped_key ;;
          match final_key with
          | Some ((String _ _) as final_key) => emit_all (report final_key)
          | _ => ret tt
          end
      | _ => ret tt
      end
  | _ => ret tt
  end ;;
  emit (Print (nl "Script finished.")) ;;
  _ <- call (Input "Press Enter to exit.") (input w "Press Enter to exit.") ;;
  ret tt.

(** ** Vocabulary of the properties *)

(** The fields of a wrapped key, as [decrypt_db_key] cuts them:
    header (3 bytes), nonce (12 bytes), ciphertext, tag (16 bytes). *)
Definition wrapped_header (wrapped_key : bytes) : bytes :=
  py_slice None (Some 3%Z) wrapped_key.

Definition wrapped_nonce (wrapped_key : bytes) : bytes :=
  py_slice (Some 3%Z) (Some 15%Z) wrapped_key.

Definition wrapped_tag (wrapped_key : bytes) : bytes :=
  py_slice (Some (-16)%Z) None (py_slice (Some 15%Z) None wrapped_key).

Definition wrapped_ciphertext (wrapped_key : bytes) : bytes :=
  py_slice None (Some (-16)%Z) (py_slice (Some 15%Z) None wrapped_key).

(** The lines [decrypt_db_key] prints. *)
Definition decrypt_start : event :=
  Print "-> Decrypting final database key with AES-256-GCM...".

Definition decrypt_success : event :=
  Print "   [SUCCESS] Final database key decrypted.".

Definition decrypt_failure (e : exn) : list event :=
  [Print decrypt_error_line; PrintExn "   Details: " e].

(** Whether a trace holds a call into the cipher. *)
Definition is_cipher_event (ev : event) : bool :=
  match ev with
  | AESNew _ _ | DecryptAndVerify _ _ => true
  | _ => false
  end.

Definition cipher_called (tr : list event) : bool := existsb is_cipher_event tr.

(** The three stages of the script, each announced by the line its function
    prints first. *)
Inductive stage : Type := MasterKey | WrappedKey | Unwrap.

Definition start_line (s : stage) : string :=
  match s with
  | MasterKey => "-> Finding and decrypting master key..."
  | WrappedKey => "-> Finding wrapped database key..."
  | Unwrap => "-> Decrypting final database key with AES-256-GCM..."
  end.

Definition starts (s : stage) (ev : event) : bool :=
  match ev with
  | Print line => String.eqb line (start_line s)
  | _ => false
  end.

(** How many times a stage was entered in a trace. *)
Definition runs (s : stage) (tr : list event) : nat :=
  length (filter (starts s) tr).

(** The line an event of [decrypt_db_key] writes to the standard output,
    [None] for an event that is no [print]. *)
Definition printed (ev : event) : option string :=
  match ev with
  | Print line => Some line
  | PrintExn prefix e =>
      option_map (fun text => (prefix ++ text)%string) (unwrap_error_text e)
  | PrintKey key => Some key
  | _ => None
  end.

(** The keys a trace shows to the user. *)
Definition keys_shown (tr : list event) : list string :=
  flat_map (fun ev => match ev with PrintKey k => [k] | _ => [] end) tr.

(** An event that neither enters a stage nor shows a key. *)
Definition quiet (ev : event) : bool :=
  match ev with
  | PrintKey _ => false
  | _ => negb (starts MasterKey ev || starts WrappedKey ev || starts Unwrap ev)
  end.

(** What [main] goes on with: a result that is a non-empty byte string. *)
Definition usable (r : exn + option bytes) : option bytes :=
  match r with
  | inr (Some ((_ :: _) as k)) => Some k
  | _ => None
  end.

(** The wrapping that the round-trip property describes, the inverse of
    [decrypt_db_key]: the text is encrypted under (key, nonce) with no
    associated data and laid out as header, nonce, ciphertext, tag. *)
Definition wrap_db_key (header key nonce : bytes) (text : string)
  : exn + bytes :=
  match GCM.new key nonce with
  | inl e => inl e
  | inr c =>
      let (ciphertext, tag) :=
        GCM.encrypt_and_digest c (list_byte_of_string text) in
      inr (header ++ nonce ++ ciphertext ++ tag)
  end.

Definition is_hex_digit (a : ascii) : bool :=
  let n := N_of_ascii a in
  ((48 <=? n) && (n <=? 57)) || ((97 <=? n) && (n <=? 102))
  || ((65 <=? n) && (n <=? 70)).

(** A string of exactly 64 hexadecimal characters. *)
Definition is_hex64 (s : string) : bool :=
  Nat.eqb (String.length s) 64 && forallb is_hex_digit (list_ascii_of_string s).

(** The shape of a DatabaseKey: "0x", then 64 hexadecimal characters. *)
Definition is_database_key (s : string) : bool :=
  match s with
  | String "0" (String "x" s') => is_hex64 s'
  | _ => false
  end.

(** [AES.new(key, AES.MODE_GCM, nonce=nonce).encrypt_and_digest(pt)]. *)
Definition gcm_encrypt (key nonce pt : bytes) : option (bytes * bytes) :=
  match GCM.new key nonce with
  | inr c => Some (GCM.encrypt_and_digest c pt)
  | inl _ => None
  end.

(** Whether the tag received with a ciphertext is the one AES-GCM computes
    for it under (key, nonce): what [decrypt_and_verify] checks. *)
Definition tag_verifies (key nonce ciphertext tag : bytes) : bool :=
  match GCM.new key nonce with
  | inr c => bytes_eqb (GCM.compute_mac c ciphertext) tag
  | inl _ => false
  end.

(** Bit [i] of a byte string inverted, bit 0 being the lowest bit of the
    first byte. *)
Fixpoint flip_bit (i : nat) (bs : bytes) : bytes :=
  match bs with
  | [] => []
  | x :: bs' =>
      if Nat.ltb i 8 then bxor x (byte_of_N (2 ^ N.of_nat i)) :: bs'
      else x :: flip_bit (i - 8) bs'
  end.

(** Byte strings written in hexadecimal, two digits a byte. *)
Definition hex_value (a : ascii) : N :=
  let n := N_of_ascii a in
  if (48 <=? n) && (n <=? 57) then n - 48
  else if (97 <=? n) && (n <=? 102) then n - 87
  else 0.

Fixpoint hex (s : string) : bytes :=
  match s with
  | String a0 (String a1 s') =>
      byte_of_N (16 * hex_value a0 + hex_value a1) :: hex s'
  | _ => []
  end.

(** The wrapped key of the concrete scenario: the zero key, the zero nonce,
    64 times 'a'. *)
Definition scenario_prefix : bytes := b "v10" ++ repeat x00 12.

Definition scenario_body : bytes :=
  hex "afc6215c2c010a0f662fa4b2db92fc79130162ab56c74b15b0c394ef146754efbc2bd0492c2b801a20893845266d57962620aa80e0da1e51001d7c82ca6d5b7e"
  ++ hex "ef0f103b87b4124079e1f9e67277dbce".

(** A run of [decrypt_db_key] that returned [None]. *)
Definition rejected (m : M (option string)) : bool :=
  match m with
  | (_, inr None) => true
  | _ => false
  end.

(** A world for examples: the protected blob starts with "XXXXX", not with
    "DPAPI", and the protector answers the zero key on what follows it. *)
Definition example_world : World := {|
  getenv := fun name =>
    if String.eqb name "APPDATA" then Some "C:/Users/u/AppData/Roaming"
    else None;
  path_join := fun dir parts =>
    fold_left (fun acc part => (acc ++ "/" ++ part)%string) parts dir;
  open_read := fun path =>
    if String.eqb path "C:/Users/u/AppData/Roaming/Signal/Local State"
    then inr "local state"
    else if String.eqb path "C:/Users/u/AppData/Roaming/Signal/config.json"
    then inr "config"
    else inl (PyError "FileNotFoundError" path);
  json_loads := fun text =>
    if String.eqb text "local state"
    then inr (JObject
                [("os_crypt",
                  JObject [("encrypted_key", JString "WFhYWFhwcm90ZWN0ZWQ=")])])
    else if String.eqb text "config"
    then inr (JObject [("encryptedKey", JString "scenario")])
    else inl (PyError "JSONDecodeError" text);
  b64decode := fun s =>
    if String.eqb s "WFhYWFhwcm90ZWN0ZWQ=" then inr (b "XXXXXprotected")
    else inl (PyError "binascii.Error" s);
  fromhex := fun s =>
    if String.eqb s "scenario" then inr (scenario_prefix ++ scenario_body)
    else inl (PyError "ValueError" s);
  unprotect := fun args =>
    if bytes_eqb (DataIn args) (b "protected") then inr ("", repeat x00 32)
    else inl (PyError "pywintypes.error" "CryptUnprotectData");
  input := fun _ => inr ""
|}.

(** ** app/analytics.py

    A [DataFrame] is the list of its named columns.  Three dtypes are
    modelled: [int64] (the numeric dtype a CSV of epoch milliseconds is read
    with), [datetime64[ns]] (nanoseconds since the epoch) and [object]
    (strings).  Floating point columns and missing values are outside the
    model. *)

Module SignalAnalytics.

Local Open Scope Z_scope.

Inductive column : Type :=
| Int64Col (vals : list Z)
| DatetimeCol (ns : list Z)
| ObjectCol (vals : list string).

Definition DataFrame : Type := list (string * column).

Inductive value : Type :=
| VInt (z : Z)
| VTime (ns : Z)
| VStr (s : string).

Definition value_eqb (u v : value) : bool :=
  match u, v with
  | VInt x, VInt y => x =? y
  | VTime x, VTime y => x =? y
  | VStr x, VStr y => String.eqb x y
  | _, _ => false
  end.

Definition values (c : column) : list value :=
  match c with
  | Int64Col vals => map VInt vals
  | DatetimeCol ns => map VTime ns
  | ObjectCol vals => map VStr vals
  end.

Inductive pd_error : Type :=
| ColumnKeyError (name : string)    (* KeyError: df[name] *)
| DtAccessorError                   (* AttributeError: .dt on a non-datetime *)
| OutOfBoundsDatetime.

(** [df[name]]. *)
Fixpoint get_column (df : DataFrame) (name : string) : option column :=
  match df with
  | [] => None
  | (k, c) :: df' => if String.eqb name k then Some c else get_column df' name
  end.

(** [df[name] = c]: the column is replaced where it stands, or added
    last. *)
Fixpoint set_column (df : DataFrame) (name : string) (c : column)
  : DataFrame :=
  match df with
  | [] => [(name, c)]
  | (k, c') :: df' =>
      if String.eqb name k then (k, c) :: df'
      else (k, c') :: set_column df' name c
  end.

(** [len(df)]. *)
Definition n_rows (df : DataFrame) : nat :=
  match df with
  | [] => O
  | (_, c) :: _ => length (values c)
  end.

Definition is_numeric_dtype (c : column) : bool :=
  match c with
  | Int64Col _ => true
  | _ => false
  end.

Definition ns_max : Z := 2 ^ 63 - 1.

(** [pd.to_datetime(s, unit='ms')] on an [int64] column, with the result in
    nanoseconds and the range check that goes with it (pandas 2).  Within
    the range every version gives the same instants. *)
Definition to_datetime_ms (ms : list Z) : pd_error + list Z :=
  if forallb (fun t => (- ns_max <=? t * 1000000) && (t * 1000000 <=? ns_max))
             ms
  then inr (map (fun t => t * 1000000) ms)
  else inl OutOfBoundsDatetime.

(** The [.dt] accessor. *)
Definition dt (c : column) : pd_error + list Z :=
  match c with
  | DatetimeCol ns => inr ns
  | _ => inl DtAccessorError
  end.

Definition ns_per_hour : Z := 3600 * 1000000000.

Definition ns_per_day : Z := 24 * ns_per_hour.

Definition hour_of (ns : Z) : Z := (ns / ns_per_hour) mod 24.

Definition day_number (ns : Z) : Z := ns / ns_per_day.

(** The proleptic Gregorian date, (year, month, day), of a day number
    counted from 1970-01-01. *)
Definition date_of_day (d : Z) : Z * Z * Z :=
  let z := d + 719468 in
  let era := z / 146097 in
  let doe := z - era * 146097 in
  let yoe := (doe - doe / 1460 + doe / 36524 - doe / 146096) / 365 in
  let doy := doe - (365 * yoe + yoe / 4 - yoe / 100) in
  let mp := (5 * doy + 2) / 153 in
  let day := doy - (153 * mp + 2) / 5 + 1 in
  let month := if mp <? 10 then mp + 3 else mp - 9 in
  let year := yoe + era * 400 + (if month <=? 2 then 1 else 0) in
  (year, month, day).

(** [groupby(keys).size()]: one entry per distinct key, keys ascending. *)
Fixpoint bump (k : Z) (acc : list (Z * nat)) : list (Z * nat) :=
  match acc with
  | [] => [(k, 1%nat)]
  | (k', n) :: acc' =>
      if k <? k' then (k, 1%nat) :: acc
      else if k =? k' then (k', S n) :: acc'
      else (k', n) :: bump k acc'
  end.

Definition group_sizes (keys : list Z) : list (Z * nat) :=
  fold_left (fun acc k => bump k acc) keys [].

(** [value_counts()]: one entry per distinct value, counts descending.
    The order among equal counts is here the order of first appearance;
    no property below depends on it. *)
Fixpoint tally (v : value) (acc : list (value * nat)) : list (value * nat) :=
  match acc with
  | [] => [(v, 1%nat)]
  | (v', n) :: acc' =>
      if value_eqb v v' then (v', S n) :: acc' else (v', n) :: tally v acc'
  end.

Fixpoint insert_desc (x : value * nat) (l : list (value * nat))
  : list (value * nat) :=
  match l with
  | [] => [x]
  | y :: l' =>
      if Nat.ltb (snd y) (snd x) then x :: l else y :: insert_desc x l'
  end.

Definition value_counts (c : column) : list (value * nat) :=
  fold_left (fun acc x => insert_desc x acc)
            (fold_left (fun acc v => tally v acc) (values c) [])
            [].

(** A method of the class: the stored frame [self.data] goes in, the
    frame it leaves behind comes out with the result. *)
Definition Q (A : Type) : Type := DataFrame -> DataFrame * (pd_error + A).

(** Lines 20-21 and 76-77: a numeric timestamp column is converted and
    stored back; the method goes on with the stored column. *)
Definition convert_timestamp : Q column :=
  fun data =>
    match get_column data "timestamp" with
    | None => (data, inl (ColumnKeyError "timestamp"))
    | Some c =>
        if is_numeric_dtype c then
          match c with
          | Int64Col ms =>
              match to_datetime_ms ms with
              | inr ns =>
                  (set_column data "timestamp" (DatetimeCol ns),
                   inr (DatetimeCol ns))
              | inl e => (data, inl e)
              end
          | _ => (data, inr c)
          end
        else (data, inr c)
    end.

Record message_counts : Type := mk_message_counts {
  by_day : list ((Z * Z * Z) * nat);
  by_hour : list (Z * nat)
}.

Definition get_message_counts : Q message_counts :=
  fun data =>
    match convert_timestamp data with
    | (data', inl e) => (data', inl e)
    | (data', inr c) =>
        match dt c with
        | inl e => (data', inl e)
        | inr ns =>
            let by_day := group_sizes (map day_number ns) in
            let by_hour := group_sizes (map hour_of ns) in
            (data',
             inr (mk_message_counts
                    (map (fun kn => (date_of_day (fst kn), snd kn)) by_day)
                    by_hour))
        end
    end.

Record top_contacts_result : Type := mk_top_contacts {
  top_contacts : list (value * nat);
  total_contacts : nat
}.

Definition get_top_contacts (n : Z) : Q top_contacts_result :=
  fun data =>
    match get_column data "contact" with
    | None => (data, inl (ColumnKeyError "contact"))
    | Some c =>
        let contact_counts := value_counts c in
        (data,
         inr (mk_top_contacts (py_slice None (Some n) contact_counts)
                              (length contact_counts)))
    end.

Inductive message_distribution : Type :=
| DistributionError (error : string)
| Distribution (message_types : list (value * nat)) (total_messages : nat).

Definition get_message_distribution : Q message_distribution :=
  fun data =>
    match get_column data "type" with
    | None => (data, inr (DistributionError "Message type column not found"))
    | Some c => (data, inr (Distribution (value_counts c) (n_rows data)))
    end.

Record active_hours : Type := mk_active_hours {
  hour_distribution : list (Z * nat);
  peak_hours : list Z
}.

Definition max_count (l : list (Z * nat)) : nat :=
  fold_right (fun kn m => Nat.max (snd kn) m) O l.

Definition get_active_hours : Q active_hours :=
  fun data =>
    match convert_timestamp data with
    | (data', inl e) => (data', inl e)
    | (data', inr c) =>
        match dt c with
        | inl e => (data', inl e)
        | inr ns =>
            let hour_counts := group_sizes (map hour_of ns) in
            let peak :=
              map fst (filter (fun kn => Nat.eqb (snd kn) (max_count hour_counts))
                              hour_counts) in
            (data', inr (mk_active_hours hour_counts peak))
        end
    end.

(** The frame with a numeric timestamp column converted where the
    conversion succeeds, and the frame itself otherwise. *)
Definition normalized (data : DataFrame) : DataFrame :=
  match get_column data "timestamp" with
  | Some (Int64Col ms) =>
      match to_datetime_ms ms with
      | inr ns => set_column data "timestamp" (DatetimeCol ns)
      | inl _ => data
      end
  | _ => data
  end.

(** The frame a method leaves behind, and its result. *)
Definition stored {A : Type} (r : DataFrame * (pd_error + A)) : DataFrame :=
  fst r.

Definition result {A : Type} (r : DataFrame * (pd_error + A))
  : pd_error + A := snd r.

(** The four queries, with their results under one type. *)
Inductive query : Type :=
| MessageCounts
| TopContacts (n : Z)
| MessageDistribution
| ActiveHours.

Inductive answer : Type :=
| AMessageCounts (r : message_counts)
| ATopContacts (r : top_contacts_result)
| AMessageDistribution (r : message_distribution)
| AActiveHours (r : active_hours).

Definition lift {A : Type} (f : A -> answer)
           (r : DataFrame * (pd_error + A)) : DataFrame * (pd_error + answer) :=
  match r with
  | (data, inl e) => (data, inl e)
  | (data, inr a) => (data, inr (f a))
  end.

Definition run (q : query) : Q answer :=
  fun data =>
    match q with
    | MessageCounts => lift AMessageCounts (get_message_counts data)
    | TopContacts n => lift ATopContacts (get_top_contacts n data)
    | MessageDistribution =>
        lift AMessageDistribution (get_message_distribution data)
    | ActiveHours => lift AActiveHours (get_active_hours data)
    end.

(** The stored frame after a sequence of queries, whatever they returned. *)
Definition after (qs : list query) (data : DataFrame) : DataFrame :=
  fold_left (fun d q => stored (run q d)) qs data.

(** app/main.py, [generate_analytics], once the CSV is read: the four
    queries run in this order on one [SignalAnalytics] object, that is on
    one stored frame; the first exception ends the request. *)
Definition generate_analytics
  : Q (message_counts * top_contacts_result * message_distribution
       * active_hours) :=
  fun df =>
    match get_message_counts df with
    | (d1, inl e) => (d1, inl e)
    | (d1, inr r1) =>
        match get_top_contacts 10 d1 with
        | (d2, inl e) => (d2, inl e)
        | (d2, inr r2) =>
            match get_message_distribution d2 with
            | (d3, inl e) => (d3, inl e)
            | (d3, inr r3) =>
                match get_active_hours d3 with
                | (d4, inl e) => (d4, inl e)
                | (d4, inr r4) => (d4, inr (r1, r2, r3, r4))
                end
            end
        end
    end.

End SignalAnalytics.

Import SignalAnalytics.

(** The cipher is reasoned about through its lemmas, never unfolded. *)
Arguments AES.encrypt_block : simpl never.
Arguments AES.schedule : simpl never.
Arguments GCM.ghash : simpl never.
Arguments GCM.derive_j0 : simpl never.
Arguments GCM.keystream_block : simpl never.
Arguments GCM.compute_mac : simpl never.
Arguments GCM.crypt : simpl never.
Arguments GCM.new : simpl never.
Arguments GCM.decrypt_and_verify : simpl never.
Arguments py_slice : simpl never.
Arguments header_ok : simpl never.
Arguments string_of_list_byte : simpl never.
Arguments String.append : simpl never.

(** ** Events of a run, by kind *)

(** Counting the events of one kind in a trace. *)
Definition count_events (p : event -> bool) (tr : list event) : nat :=
  length (filter p tr).

Definition is_unprotect (ev : event) : bool :=
  match ev with CryptUnprotectData _ => true | _ => false end.

Definition is_aes_new (ev : event) : bool :=
  match ev with AESNew _ _ => true | _ => false end.

Definition is_decrypt_and_verify (ev : event) : bool :=
  match ev with DecryptAndVerify _ _ => true | _ => false end.

Definition is_error_line (ev : event) : bool :=
  match ev with PrintExn _ _ => true | _ => false end.

(** A world with no APPDATA in the environment. *)
Definition bare_world : World := {|
  getenv := fun _ => None;
  path_join := path_join example_world;
  open_read := open_read example_world;
  json_loads := json_loads example_world;
  b64decode := b64decode example_world;
  fromhex := fromhex example_world;
  unprotect := unprotect example_world;
  input := input example_world
|}.


(** A world whose protector answers the empty byte string. *)
Definition empty_key_world : World := {|
  getenv := getenv example_world;
  path_join := path_join example_world;
  open_read := open_read example_world;
  json_loads := json_loads example_world;
  b64decode := b64decode example_world;
  fromhex := fromhex example_world;
  unprotect := fun _ => inr ("", []);
  input := input example_world
|}.

Definition is_open_read (ev : event) : bool :=
  match ev with OpenRead _ => true | _ => false end.


(** ** Vocabulary of the analytics properties *)

Section AnalyticsVocabulary.

Local Open Scope Z_scope.

(** The instants of a frame, in nanoseconds, when its timestamp column is
    one of datetimes, or one of epoch milliseconds (int64) that all fit the
    nanosecond range; no value is missing from either. *)
Definition timestamps (data : DataFrame) : option (list Z) :=
  match get_column data "timestamp" with
  | Some (DatetimeCol ns) => Some ns
  | Some (Int64Col ms) =>
      match to_datetime_ms ms with
      | inr ns => Some ns
      | inl _ => None
      end
  | _ => None
  end.

(** [d[k]] on a mapping from category to count, [None] for a missing key. *)
Fixpoint dict_get (k : Z) (d : list (Z * nat)) : option nat :=
  match d with
  | [] => None
  | (k', n) :: d' => if (k =? k')%Z then Some n else dict_get k d'
  end.

Definition sum_counts {K : Type} (d : list (K * nat)) : nat :=
  fold_right (fun kn s => (snd kn + s)%nat) O d.

(** A count as a mapping holds it: no entry for zero. *)
Definition entry (n : nat) : option nat :=
  match n with
  | O => None
  | S _ => Some n
  end.

(** How many of the values equal [v]. *)
Definition occurrences (v : value) (vals : list value) : nat :=
  length (filter (value_eqb v) vals).

(** Every column has one value per row. *)
Definition rectangular (data : DataFrame) : Prop :=
  Forall (fun kc => length (values (snd kc)) = n_rows data) data.

(** The count under a key, 0 for a missing key. *)
Definition get0 (k : Z) (d : list (Z * nat)) : nat :=
  match dict_get k d with
  | Some n => n
  | None => O
  end.

(** Keys strictly ascending, hence distinct. *)
Definition increasing (d : list (Z * nat)) : Prop :=
  StronglySorted Z.lt (map fst d).

(** No entry with a zero count. *)
Definition positive (d : list (Z * nat)) : Prop :=
  Forall (fun kn => (1 <= snd kn)%nat) d.

(** Counts descending down a list. *)
Definition descending (d : list (value * nat)) : Prop :=
  StronglySorted (fun x y => (snd y <= snd x)%nat) d.

(** The counts a list gives to [v], added up. *)
Definition cnt (v : value) (d : list (value * nat)) : nat :=
  sum_counts (filter (fun kn => value_eqb v (fst kn)) d).

End AnalyticsVocabulary.


(** ** app/main.py

    The two endpoints, from the uploaded file to the response or the
    exception raised.  An upload is its file name and what
    [pd.read_csv(file.file)] makes of its content; [describe] is [str(e)]. *)

Module App.

Inductive api_exn : Type :=
| HTTPException (status_code : nat) (detail : string)
| AttributeError (msg : string)       (* file.filename is None *)
| CsvError (cls msg : string)         (* raised by pd.read_csv *)
| QueryError (e : SignalAnalytics.pd_error).

Record upload : Type := mk_upload {
  filename : option string;
  read_csv : api_exn + SignalAnalytics.DataFrame
}.

(** [s.endswith(suffix)]: some tail of [s] is [suffix]. *)
Fixpoint endswith (s suffix : string) : bool :=
  if String.eqb s suffix then true
  else match s with
       | EmptyString => false
       | String _ s' => endswith s' suffix
       end.

(** [try: body except Exception as e: raise HTTPException(500, str(e))]. *)
Definition guard {A : Type} (describe : api_exn -> string)
           (body : api_exn + A) : api_exn + A :=
  match body with
  | inr a => inr a
  | inl e => inl (HTTPException 500 (describe e))
  end.

(** [if file.filename.endswith('.csv'): ... else: raise HTTPException(400)],
    the part the two endpoints share. *)
Definition csv_only {A : Type} (file : upload)
           (k : SignalAnalytics.DataFrame -> api_exn + A) : api_exn + A :=
  match filename file with
  | None => inl (AttributeError "'NoneType' object has no attribute 'endswith'")
  | Some name =>
      if endswith name ".csv" then
        match read_csv file with
        | inl e => inl e
        | inr df => k df
        end
      else inl (HTTPException 400 "Only CSV files are supported")
  end.

Record upload_response : Type := mk_upload_response {
  message : string;
  columns : list string
}.

Definition upload_signal_data (describe : api_exn -> string) (file : upload)
  : api_exn + upload_response :=
  guard describe
    (csv_only file
       (fun df =>
          inr (mk_upload_response "CSV file uploaded successfully"
                                  (map fst df)))).

Record analytics_response : Type := mk_analytics_response {
  message_counts : SignalAnalytics.message_counts;
  top_contacts : SignalAnalytics.top_contacts_result;
  message_distribution : SignalAnalytics.message_distribution;
  active_hours : SignalAnalytics.active_hours
}.

Definition generate_analytics (describe : api_exn -> string) (file : upload)
  : api_exn + analytics_response :=
  guard describe
    (csv_only file
       (fun df =>
          match SignalAnalytics.generate_analytics df with
          | (_, inl e) => inl (QueryError e)
          | (_, inr (r1, r2, r3, r4)) =>
              inr (mk_analytics_response r1 r2 r3 r4)
          end)).

End App.

(** * Properties *)

(** ** Bytes and exclusive or *)

Lemma to_N_lt_256 (x : byte) : Byte.to_N x < 256.
Proof. pose proof (Byte.to_N_bounded x). lia. Qed.

Lemma to_N_byte_of_N (n : N) : Byte.to_N (byte_of_N n) = n mod 256.
Proof.
  unfold byte_of_N.
  destruct (Byte.of_N (n mod 256)) as [x|] eqn:E.
  - now apply Byte.to_of_N.
  - apply Byte.of_N_None_iff in E.
    pose proof (N.mod_upper_bound n 256). lia.
Qed.

Lemma byte_of_N_to_N (x : byte) : byte_of_N (Byte.to_N x) = x.
Proof.
  unfold byte_of_N.
  rewrite N.mod_small by apply to_N_lt_256.
  now rewrite Byte.of_to_N.
Qed.

Lemma lxor_small (m n : N) : m < 256 -> n < 256 -> N.lxor m n mod 256 = N.lxor m n.
Proof.
  intros Hm Hn. change 256 with (2 ^ 8) in *.
  apply N.bits_inj. intro i.
  destruct (N.lt_ge_cases i 8) as [Hi|Hi].
  - now rewrite N.mod_pow2_bits_low.
  - rewrite N.mod_pow2_bits_high by assumption.
    rewrite N.lxor_spec.
    rewrite <- (N.mod_small m (2 ^ 8)), <- (N.mod_small n (2 ^ 8)) by assumption.
    now rewrite !N.mod_pow2_bits_high by assumption.
Qed.

Lemma to_N_bxor (x y : byte) :
  Byte.to_N (bxor x y) = N.lxor (Byte.to_N x) (Byte.to_N y).
Proof.
  unfold bxor. rewrite to_N_byte_of_N.
  apply lxor_small; apply to_N_lt_256.
Qed.

Lemma to_N_inj (x y : byte) : Byte.to_N x = Byte.to_N y -> x = y.
Proof.
  intro E. rewrite <- (byte_of_N_to_N x), <- (byte_of_N_to_N y). now rewrite E.
Qed.

Lemma bxor_involutive (x y : byte) : bxor (bxor x y) y = x.
Proof.
  apply to_N_inj. rewrite !to_N_bxor.
  now rewrite N.lxor_assoc, N.lxor_nilpotent, N.lxor_0_r.
Qed.

Lemma xor_bytes_length (u v : bytes) :
  length (xor_bytes u v) = Nat.min (length u) (length v).
Proof.
  revert v. induction u as [|x u IH]; intros [|y v]; simpl; auto.
Qed.

Lemma xor_bytes_involutive (u v : bytes) :
  (length u <= length v)%nat -> xor_bytes (xor_bytes u v) v = u.
Proof.
  revert v. induction u as [|x u IH]; intros [|y v]; simpl; intro Hl;
    try reflexivity; try lia.
  rewrite bxor_involutive, IH by lia. reflexivity.
Qed.

Lemma bytes_eqb_refl (u : bytes) : bytes_eqb u u = true.
Proof.
  induction u as [|x u IH]; simpl; [reflexivity|].
  now rewrite (Byte.byte_dec_lb (eq_refl x)).
Qed.

Lemma bytes_eqb_eq (u v : bytes) : bytes_eqb u v = true <-> u = v.
Proof.
  split.
  - revert v. induction u as [|x u IH]; intros [|y v]; simpl; intro E;
      try reflexivity; try discriminate.
    apply andb_true_iff in E as [Exy Euv].
    apply Byte.byte_dec_bl in Exy. now rewrite Exy, (IH v Euv).
  - intros ->. apply bytes_eqb_refl.
Qed.

Lemma bytes_eqb_length (u v : bytes) :
  length u <> length v -> bytes_eqb u v = false.
Proof.
  intro Hl. destruct (bytes_eqb u v) eqn:E; [|reflexivity].
  apply bytes_eqb_eq in E. now subst.
Qed.

Lemma long_to_bytes_length (k : nat) (n : N) : length (long_to_bytes k n) = k.
Proof.
  revert n. induction k as [|k IH]; intro n; simpl; [reflexivity|].
  rewrite length_app, IH. simpl. lia.
Qed.

(** ** Slices *)

Lemma py_slice_prefix {A : Type} (k : nat) (l : list A) :
  py_slice None (Some (Z.of_nat k)) l = firstn k l.
Proof.
  unfold py_slice, norm_index.
  destruct (Z.ltb_spec (Z.of_nat k) 0); [lia|]. simpl skipn.
  destruct (Nat.le_gt_cases k (length l)) as [Hk|Hk].
  - f_equal. lia.
  - rewrite !firstn_all2 by lia. reflexivity.
Qed.

Lemma py_slice_suffix {A : Type} (k : nat) (l : list A) :
  py_slice (Some (Z.of_nat k)) None l = skipn k l.
Proof.
  unfold py_slice, norm_index.
  destruct (Z.ltb_spec (Z.of_nat k) 0); [lia|].
  destruct (Nat.le_gt_cases k (length l)) as [Hk|Hk].
  - replace (Z.to_nat (Z.min (Z.of_nat k) (Z.of_nat (length l)))) with k by lia.
    apply firstn_all2. rewrite length_skipn. lia.
  - replace (Z.to_nat (Z.min (Z.of_nat k) (Z.of_nat (length l))))
      with (length l) by lia.
    rewrite skipn_all. rewrite (skipn_all2 l) by lia. apply firstn_nil.
Qed.

Lemma py_slice_between {A : Type} (i j : nat) (l : list A) :
  (i <= j)%nat ->
  py_slice (Some (Z.of_nat i)) (Some (Z.of_nat j)) l = firstn (j - i) (skipn i l).
Proof.
  intro Hij. unfold py_slice, norm_index.
  destruct (Z.ltb_spec (Z.of_nat i) 0); [lia|].
  destruct (Z.ltb_spec (Z.of_nat j) 0); [lia|].
  destruct (Nat.le_gt_cases i (length l)) as [Hi|Hi].
  - replace (Z.to_nat (Z.min (Z.of_nat i) (Z.of_nat (length l)))) with i by lia.
    destruct (Nat.le_gt_cases j (length l)) as [Hj|Hj].
    + f_equal. lia.
    + rewrite !firstn_all2; try reflexivity; rewrite length_skipn; lia.
  - rewrite !(skipn_all2 l) by lia. now rewrite !firstn_nil.
Qed.

Lemma py_slice_last {A : Type} (k : nat) (l : list A) :
  (0 < k)%nat ->
  py_slice (Some (- Z.of_nat k)%Z) None l = skipn (length l - k) l.
Proof.
  intro Hk. unfold py_slice, norm_index.
  destruct (Z.ltb_spec (- Z.of_nat k) 0); [|lia].
  replace (Z.to_nat (Z.max 0 (Z.of_nat (length l) + - Z.of_nat k)))
    with (length l - k)%nat by lia.
  apply firstn_all2. rewrite length_skipn. lia.
Qed.

Lemma py_slice_but_last {A : Type} (k : nat) (l : list A) :
  (0 < k)%nat ->
  py_slice None (Some (- Z.of_nat k)%Z) l = firstn (length l - k) l.
Proof.
  intro Hk. unfold py_slice, norm_index.
  destruct (Z.ltb_spec (- Z.of_nat k) 0); [|lia].
  simpl skipn. f_equal. lia.
Qed.

(** ** Counter mode and the tag *)


Lemma keystream_block_length (c : GCM.t) (i : N) :
  length (GCM.keystream_block c i) = 16%nat.
Proof. apply long_to_bytes_length. Qed.

Lemma ctr_nil (n : nat) (c : GCM.t) (i : N) : GCM.ctr n c i [] = [].
Proof.
  revert i. induction n as [|n IH]; intro i; simpl; [reflexivity|].
  now rewrite IH.
Qed.

Lemma ctr_length (n : nat) (c : GCM.t) (i : N) (data : bytes) :
  (length data <= 16 * n)%nat -> length (GCM.ctr n c i data) = length data.
Proof.
  revert i data. induction n as [|n IH]; intros i data Hl.
  - destruct data; simpl in *; [reflexivity|lia].
  - cbn [GCM.ctr]. rewrite length_app, xor_bytes_length, keystream_block_length.
    rewrite IH by (rewrite length_skipn; lia).
    rewrite length_firstn, length_skipn. lia.
Qed.

Lemma ctr_involutive (n : nat) (c : GCM.t) (i : N) (data : bytes) :
  (length data <= 16 * n)%nat -> GCM.ctr n c i (GCM.ctr n c i data) = data.
Proof.
  revert i data. induction n as [|n IH]; intros i data Hl.
  - destruct data; simpl in *; [reflexivity|lia].
  - cbn [GCM.ctr].
    set (x := xor_bytes (firstn 16 data) (GCM.keystream_block c i)).
    set (rest := GCM.ctr n c (i + 1) (skipn 16 data)).
    assert (Hx : length x = length (firstn 16 data)).
    { unfold x. rewrite xor_bytes_length, keystream_block_length, length_firstn. lia. }
    assert (Hback : xor_bytes x (GCM.keystream_block c i) = firstn 16 data).
    { unfold x. apply xor_bytes_involutive.
      rewrite keystream_block_length, length_firstn. lia. }
    destruct (Nat.le_gt_cases 16 (length data)) as [Hge|Hlt].
    + assert (Hx16 : length x = 16%nat) by (rewrite Hx, length_firstn; lia).
      rewrite firstn_app, skipn_app, Hx16, Nat.sub_diag.
      rewrite (firstn_all2 x), (skipn_all2 x) by lia.
      simpl firstn; simpl skipn. rewrite app_nil_r. simpl app.
      unfold rest. rewrite IH by (rewrite length_skipn; lia).
      rewrite Hback. apply firstn_skipn.
    + assert (Hrest : rest = []).
      { unfold rest. rewrite skipn_all2 by lia. apply ctr_nil. }
      rewrite Hrest, app_nil_r.
      rewrite (firstn_all2 x), (skipn_all2 x) by (rewrite Hx, length_firstn; lia).
      rewrite ctr_nil, app_nil_r, Hback. apply firstn_all2. lia.
Qed.

Lemma blocks_cover (n : nat) : (n <= 16 * ((n + 15) / 16))%nat.
Proof.
  pose proof (Nat.div_mod_eq (n + 15) 16).
  pose proof (Nat.mod_upper_bound (n + 15) 16). lia.
Qed.

Lemma crypt_length (c : GCM.t) (data : bytes) :
  length (GCM.crypt c data) = length data.
Proof. unfold GCM.crypt. apply ctr_length, blocks_cover. Qed.

(** Counter mode is its own inverse. *)
Lemma crypt_involutive (c : GCM.t) (data : bytes) :
  GCM.crypt c (GCM.crypt c data) = data.
Proof.
  unfold GCM.crypt at 1. rewrite crypt_length.
  unfold GCM.crypt. apply ctr_involutive, blocks_cover.
Qed.

Lemma compute_mac_length (c : GCM.t) (ct : bytes) :
  length (GCM.compute_mac c ct) = 16%nat.
Proof. apply long_to_bytes_length. Qed.

(** The library's own round trip. *)
Lemma decrypt_and_verify_encrypt (c : GCM.t) (pt : bytes) :
  GCM.decrypt_and_verify c (fst (GCM.encrypt_and_digest c pt))
                           (snd (GCM.encrypt_and_digest c pt)) = inr pt.
Proof.
  unfold GCM.decrypt_and_verify, GCM.encrypt_and_digest. cbn [fst snd].
  now rewrite bytes_eqb_refl, crypt_involutive.
Qed.

Lemma decrypt_and_verify_mismatch (c : GCM.t) (ct tag : bytes) :
  GCM.compute_mac c ct <> tag ->
  GCM.decrypt_and_verify c ct tag = inl MacCheckFailed.
Proof.
  intro Hne. unfold GCM.decrypt_and_verify.
  destruct (bytes_eqb (GCM.compute_mac c ct) tag) eqn:E; [|reflexivity].
  now apply bytes_eqb_eq in E.
Qed.

Lemma decrypt_and_verify_short_tag (c : GCM.t) (ct tag : bytes) :
  length tag <> 16%nat -> GCM.decrypt_and_verify c ct tag = inl MacCheckFailed.
Proof.
  intro Hl. apply decrypt_and_verify_mismatch. intro E.
  apply Hl. now rewrite <- E, compute_mac_length.
Qed.

Lemma new_accepts (key nonce : bytes) :
  AES.key_size_ok key = true -> nonce <> [] ->
  exists c, GCM.new key nonce = inr c.
Proof.
  intros Hk Hn. unfold GCM.new.
  destruct nonce as [|x nonce]; [congruence|]. cbn [length Nat.eqb].
  rewrite Hk. cbn [negb]. eauto.
Qed.

Lemma new_rejects_key (key nonce : bytes) :
  AES.key_size_ok key = false ->
  GCM.new key nonce = inl (if Nat.eqb (length nonce) 0 then NonceEmpty
                           else IncorrectKeyLength (length key)).
Proof.
  intro Hk. unfold GCM.new. rewrite Hk.
  now destruct (Nat.eqb (length nonce) 0).
Qed.

(** ** The unwrapping function, case by case *)

Lemma decrypt_db_key_cases (master_key wrapped_key : bytes) :
  decrypt_db_key master_key wrapped_key =
  let header := wrapped_header wrapped_key in
  let nonce := wrapped_nonce wrapped_key in
  let ciphertext := wrapped_ciphertext wrapped_key in
  let tag := wrapped_tag wrapped_key in
  if header_ok header then
    match GCM.new master_key nonce with
    | inl e =>
        (decrypt_start :: AESNew master_key nonce :: decrypt_failure e,
         inr None)
    | inr c =>
        match GCM.decrypt_and_verify c ciphertext tag with
        | inl e =>
            (decrypt_start :: AESNew master_key nonce
               :: DecryptAndVerify ciphertext tag :: decrypt_failure e,
             inr None)
        | inr pt =>
            if utf8_valid pt then
              ([decrypt_start; AESNew master_key nonce;
                DecryptAndVerify ciphertext tag; decrypt_success],
               inr (Some ("0x" ++ string_of_list_byte pt)%string))
            else
              (decrypt_start :: AESNew master_key nonce
                 :: DecryptAndVerify ciphertext tag
                 :: decrypt_failure (UnicodeDecodeError pt),
               inr None)
        end
    end
  else (decrypt_start :: decrypt_failure (UnexpectedHeader header), inr None).
Proof.
  unfold decrypt_db_key, wrapped_header, wrapped_nonce, wrapped_ciphertext,
    wrapped_tag, decode_utf8, decrypt_failure, decrypt_start, decrypt_success.
  cbv zeta.
  destruct (header_ok (py_slice None (Some 3%Z) wrapped_key)); [|reflexivity].
  destruct (GCM.new master_key (py_slice (Some 3%Z) (Some 15%Z) wrapped_key))
    as [e|c]; simpl; [reflexivity|].
  destruct (GCM.decrypt_and_verify c _ _) as [e|pt]; simpl; [reflexivity|].
  destruct (utf8_valid pt); reflexivity.
Qed.

(** ** The layout of a wrapped key *)

Lemma wrapped_header_eq (w : bytes) : wrapped_header w = firstn 3 w.
Proof. apply (py_slice_prefix 3). Qed.

Lemma wrapped_nonce_eq (w : bytes) : wrapped_nonce w = firstn 12 (skipn 3 w).
Proof. apply (py_slice_between 3 15). lia. Qed.

Lemma wrapped_tag_eq (w : bytes) :
  wrapped_tag w = skipn (length (skipn 15 w) - 16) (skipn 15 w).
Proof.
  unfold wrapped_tag. rewrite (py_slice_suffix 15).
  apply (py_slice_last 16). lia.
Qed.

Lemma wrapped_ciphertext_eq (w : bytes) :
  wrapped_ciphertext w = firstn (length (skipn 15 w) - 16) (skipn 15 w).
Proof.
  unfold wrapped_ciphertext. rewrite (py_slice_suffix 15).
  apply (py_slice_but_last 16). lia.
Qed.

Lemma layout_of_parts (header nonce ct tag : bytes) :
  length header = 3%nat -> length nonce = 12%nat -> length tag = 16%nat ->
  let w := header ++ nonce ++ ct ++ tag in
  wrapped_header w = header /\ wrapped_nonce w = nonce
  /\ wrapped_ciphertext w = ct /\ wrapped_tag w = tag.
Proof.
  intros Hh Hn Ht w.
  assert (H15 : skipn 15 w = ct ++ tag).
  { unfold w. rewrite app_assoc.
    rewrite skipn_app, length_app, Hh, Hn. simpl Nat.sub.
    rewrite skipn_all2 by (rewrite length_app; lia). reflexivity. }
  repeat split.
  - rewrite wrapped_header_eq. unfold w.
    rewrite firstn_app, Hh, Nat.sub_diag, firstn_all2 by lia.
    simpl. apply app_nil_r.
  - rewrite wrapped_nonce_eq. unfold w.
    rewrite skipn_app, Hh, Nat.sub_diag, skipn_all2 by lia. cbn [app skipn].
    rewrite firstn_app, Hn, Nat.sub_diag, firstn_all2 by lia.
    simpl. apply app_nil_r.
  - rewrite wrapped_ciphertext_eq, H15, length_app, Ht.
    replace (length ct + 16 - 16)%nat with (length ct) by lia.
    rewrite firstn_app, Nat.sub_diag, firstn_all2 by lia.
    simpl. apply app_nil_r.
  - rewrite wrapped_tag_eq, H15, length_app, Ht.
    replace (length ct + 16 - 16)%nat with (length ct) by lia.
    rewrite skipn_app, Nat.sub_diag, skipn_all2 by lia. reflexivity.
Qed.

Lemma header_ok_length (header : bytes) :
  header_ok header = true -> length header = 3%nat.
Proof.
  unfold header_ok. intro H. apply orb_true_iff in H as [H|H];
    apply bytes_eqb_eq in H; now subst.
Qed.

Lemma wrapped_nonce_length (w : bytes) :
  (15 <= length w)%nat -> length (wrapped_nonce w) = 12%nat.
Proof.
  intro Hl. rewrite wrapped_nonce_eq, length_firstn, length_skipn. lia.
Qed.

Lemma wrapped_tag_short (w : bytes) :
  (length w < 31)%nat -> (length (wrapped_tag w) < 16)%nat.
Proof.
  intro Hl. rewrite wrapped_tag_eq, !length_skipn. lia.
Qed.

(** ** ASCII text *)

Lemma utf8_valid_ascii (bs : bytes) :
  Forall (fun x => Byte.to_N x < 128) bs -> utf8_valid bs = true.
Proof.
  induction 1 as [|x bs Hx _ IH]; [reflexivity|].
  cbn [utf8_valid]. apply N.ltb_lt in Hx. now rewrite Hx.
Qed.

Lemma to_N_byte_of_ascii (a : ascii) :
  Byte.to_N (byte_of_ascii a) = N_of_ascii a.
Proof.
  destruct a as [[] [] [] [] [] [] [] []]; reflexivity.
Qed.

Lemma hex_digit_ascii (a : ascii) :
  is_hex_digit a = true -> Byte.to_N (byte_of_ascii a) < 128.
Proof.
  rewrite to_N_byte_of_ascii. unfold is_hex_digit.
  rewrite !orb_true_iff, !andb_true_iff, !N.leb_le. lia.
Qed.

Lemma hex_bytes_ascii (s : string) :
  forallb is_hex_digit (list_ascii_of_string s) = true ->
  Forall (fun x => Byte.to_N x < 128) (list_byte_of_string s).
Proof.
  induction s as [|a s IH]; simpl; intro Hs; constructor.
  - apply andb_true_iff in Hs as [Ha _]. now apply hex_digit_ascii.
  - apply andb_true_iff in Hs as [_ Hs]. now apply IH.
Qed.

(** ** Test vectors

    The block cipher on the example vectors of FIPS-197, Appendix C, and the
    mode on test cases 2, 3, 14 and 15 of the GCM specification. *)

Example aes128_fips197 :
  AES.encrypt_block (AES.schedule (hex "000102030405060708090a0b0c0d0e0f"))
                    (bytes_to_long (hex "00112233445566778899aabbccddeeff"))
  = bytes_to_long (hex "69c4e0d86a7b0430d8cdb78070b4c55a").
Proof. vm_compute. reflexivity. Qed.

Example aes192_fips197 :
  AES.encrypt_block
    (AES.schedule (hex "000102030405060708090a0b0c0d0e0f1011121314151617"))
    (bytes_to_long (hex "00112233445566778899aabbccddeeff"))
  = bytes_to_long (hex "dda97ca4864cdfe06eaf70a0ec0d7191").
Proof. vm_compute. reflexivity. Qed.

Example aes256_fips197 :
  AES.encrypt_block
    (AES.schedule
       (hex "000102030405060708090a0b0c0d0e0f101112131415161718191a1b1c1d1e1f"))
    (bytes_to_long (hex "00112233445566778899aabbccddeeff"))
  = bytes_to_long (hex "8ea2b7ca516745bfeafc49904b496089").
Proof. vm_compute. reflexivity. Qed.

Example gcm_test_case_2 :
  gcm_encrypt (repeat x00 16) (repeat x00 12) (repeat x00 16)
  = Some (hex "0388dace60b6a392f328c2b971b2fe78",
          hex "ab6e47d42cec13bdf53a67b21257bddf").
Proof. vm_compute. reflexivity. Qed.

Example gcm_test_case_3 :
  gcm_encrypt
    (hex "feffe9928665731c6d6a8f9467308308") (hex "cafebabefacedbaddecaf888")
    (hex "d9313225f88406e5a55909c5aff5269a86a7a9531534f7da2e4c303d8a318a721c3c0c95956809532fcf0e2449a6b525b16aedf5aa0de657ba637b391aafd255")
  = Some (hex "42831ec2217774244b7221b784d0d49ce3aa212f2c02a4e035c17e2329aca12e21d514b25466931c7d8f6a5aac84aa051ba30b396a0aac973d58e091473f5985",
          hex "4d5c2af327cd64a62cf35abd2ba6fab4").
Proof. vm_compute. reflexivity. Qed.

Example gcm_test_case_14 :
  gcm_encrypt (repeat x00 32) (repeat x00 12) (repeat x00 16)
  = Some (hex "cea7403d4d606b6e074ec5d3baf39d18",
          hex "d0d1c8a799996bf0265b98b5d48ab919").
Proof. vm_compute. reflexivity. Qed.

Example gcm_test_case_15 :
  gcm_encrypt
    (hex "feffe9928665731c6d6a8f9467308308feffe9928665731c6d6a8f9467308308")
    (hex "cafebabefacedbaddecaf888")
    (hex "d9313225f88406e5a55909c5aff5269a86a7a9531534f7da2e4c303d8a318a721c3c0c95956809532fcf0e2449a6b525b16aedf5aa0de657ba637b391aafd255")
  = Some (hex "522dc1f099567d07f47f37a32a84427d643a8cdcbfe5c0c97598a2bd2555d1aa8cb08e48590dbb3da7b08b1056828838c5f61e6393ba7a0abcc9f662898015ad",
          hex "b094dac5d93471bdec1a502270e3cc6c").
Proof. vm_compute. reflexivity. Qed.

(** ** Unwrapping: round trip and fail-closed behaviour *)

Lemma key_size_ok_32 (K : bytes) : length K = 32%nat -> AES.key_size_ok K = true.
Proof. intro H. unfold AES.key_size_ok. now rewrite H. Qed.

Lemma nonce_12_nonempty (nonce : bytes) : length nonce = 12%nat -> nonce <> [].
Proof. now destruct nonce. Qed.

(** C2 (round trip).  For every 32-byte key K, every 12-byte nonce N and
    every string P of 64 hexadecimal characters: encrypting the UTF-8 bytes
    of P with AES-256-GCM under (K, N) with no associated data and laying the
    result out as "v10", N, ciphertext, tag gives a wrapped key that
    [decrypt_db_key] unwraps under K to exactly "0x" followed by P. *)
Theorem unwrap_round_trip (K N : bytes) (P : string) :
  length K = 32%nat -> length N = 12%nat -> is_hex64 P = true ->
  exists wrapped,
    wrap_db_key (b "v10") K N P = inr wrapped
    /\ outcome (decrypt_db_key K wrapped) = inr (Some ("0x" ++ P)%string).
Proof.
  intros HK HN HP.
  apply andb_true_iff in HP as [_ Hhex].
  destruct (new_accepts K N (key_size_ok_32 K HK) (nonce_12_nonempty N HN))
    as [c Hc].
  unfold wrap_db_key. rewrite Hc.
  pose proof (decrypt_and_verify_encrypt c (list_byte_of_string P)) as Hdv.
  destruct (GCM.encrypt_and_digest c (list_byte_of_string P)) as [ct tag] eqn:E.
  cbn [fst snd] in Hdv.
  assert (Ht : length tag = 16%nat).
  { unfold GCM.encrypt_and_digest in E. injection E as _ <-.
    apply compute_mac_length. }
  eexists. split; [reflexivity|].
  rewrite decrypt_db_key_cases. cbv zeta.
  destruct (layout_of_parts (b "v10") N ct tag eq_refl HN Ht)
    as (-> & -> & -> & ->).
  change (header_ok (b "v10")) with true. cbv iota.
  rewrite Hc, Hdv.
  rewrite utf8_valid_ascii by now apply hex_bytes_ascii.
  now rewrite string_of_list_byte_of_string.
Qed.

(** The concrete scenario: the zero key, the zero nonce, 64 times 'a'. *)
Lemma unwrap_round_trip_witness :
  exists wrapped,
    wrap_db_key (b "v10") (repeat x00 32) (repeat x00 12)
      "aaaaaaaaaaaaaaaaaaaaaaaaaaaaaaaaaaaaaaaaaaaaaaaaaaaaaaaaaaaaaaaa"
    = inr wrapped
    /\ outcome (decrypt_db_key (repeat x00 32) wrapped)
       = inr (Some "0xaaaaaaaaaaaaaaaaaaaaaaaaaaaaaaaaaaaaaaaaaaaaaaaaaaaaaaaaaaaaaaaa").
Proof.
  apply (unwrap_round_trip (repeat x00 32) (repeat x00 12)
           "aaaaaaaaaaaaaaaaaaaaaaaaaaaaaaaaaaaaaaaaaaaaaaaaaaaaaaaaaaaaaaaa");
    reflexivity.
Defined.

(** The same scenario with the bytes written out. *)
Example concrete_scenario :
  let K := repeat x00 32 in
  let wrapped :=
    b "v10" ++ repeat x00 12
      ++ hex "afc6215c2c010a0f662fa4b2db92fc79130162ab56c74b15b0c394ef146754efbc2bd0492c2b801a20893845266d57962620aa80e0da1e51001d7c82ca6d5b7e"
      ++ hex "ef0f103b87b4124079e1f9e67277dbce" in
  wrap_db_key (b "v10") K (repeat x00 12)
    "aaaaaaaaaaaaaaaaaaaaaaaaaaaaaaaaaaaaaaaaaaaaaaaaaaaaaaaaaaaaaaaa"
  = inr wrapped
  /\ outcome (decrypt_db_key K wrapped)
     = inr (Some "0xaaaaaaaaaaaaaaaaaaaaaaaaaaaaaaaaaaaaaaaaaaaaaaaaaaaaaaaaaaaaaaaa").
Proof. vm_compute. split; reflexivity. Qed.

Lemma tag_verifies_false (K nonce ct tag : bytes) (c : GCM.t) :
  GCM.new K nonce = inr c ->
  tag_verifies K nonce ct tag = false ->
  GCM.decrypt_and_verify c ct tag = inl MacCheckFailed.
Proof.
  intros Hc Hv. unfold tag_verifies in Hv. rewrite Hc in Hv.
  unfold GCM.decrypt_and_verify. now rewrite Hv.
Qed.

(** C1 (fail closed).  For every 32-byte master key and every wrapped key of
    valid layout (at least 31 bytes, header "v10" or "v11"): if the tag does
    not verify under AES-GCM, for whatever cause (a flipped bit in ciphertext
    or tag, a wrong key), [decrypt_db_key] returns [None]; the exception it
    reports is the cipher's "MAC check failed", and nothing else is printed
    or returned: no plaintext leaves the function. *)
Theorem tamper_fails_closed (K wrapped : bytes) :
  length K = 32%nat ->
  (31 <= length wrapped)%nat ->
  header_ok (wrapped_header wrapped) = true ->
  tag_verifies K (wrapped_nonce wrapped) (wrapped_ciphertext wrapped)
               (wrapped_tag wrapped) = false ->
  decrypt_db_key K wrapped
  = (decrypt_start
       :: AESNew K (wrapped_nonce wrapped)
       :: DecryptAndVerify (wrapped_ciphertext wrapped) (wrapped_tag wrapped)
       :: decrypt_failure MacCheckFailed,
     inr None).
Proof.
  intros HK Hlen Hh Hv.
  assert (Hn : length (wrapped_nonce wrapped) = 12%nat)
    by (apply wrapped_nonce_length; lia).
  destruct (new_accepts K _ (key_size_ok_32 K HK) (nonce_12_nonempty _ Hn))
    as [c Hc].
  rewrite decrypt_db_key_cases. cbv zeta.
  now rewrite Hh, Hc, (tag_verifies_false _ _ _ _ c Hc Hv).
Qed.

(** The scenario's wrapped key with the lowest bit of its last byte
    inverted. *)
Lemma tamper_fails_closed_witness :
  let K := repeat x00 32 in
  let wrapped :=
    b "v10" ++ repeat x00 12
      ++ hex "afc6215c2c010a0f662fa4b2db92fc79130162ab56c74b15b0c394ef146754efbc2bd0492c2b801a20893845266d57962620aa80e0da1e51001d7c82ca6d5b7e"
      ++ hex "ef0f103b87b4124079e1f9e67277dbcf" in
  decrypt_db_key K wrapped
  = (decrypt_start
       :: AESNew K (wrapped_nonce wrapped)
       :: DecryptAndVerify (wrapped_ciphertext wrapped) (wrapped_tag wrapped)
       :: decrypt_failure MacCheckFailed,
     inr None).
Proof.
  intros K wrapped.
  apply (tamper_fails_closed K wrapped);
    [reflexivity | apply Nat.leb_le; reflexivity | reflexivity
    | vm_compute; reflexivity].
Defined.

(** *** Single-bit flips and wrong keys *)

Lemma flip_bit_length (i : nat) (bs : bytes) :
  length (flip_bit i bs) = length bs.
Proof.
  revert i. induction bs as [|x bs IH]; intro i; simpl; [reflexivity|].
  destruct (Nat.ltb i 8); simpl; [reflexivity|]. now rewrite IH.
Qed.

Lemma bxor_bit_neq (x : byte) (i : nat) :
  (i < 8)%nat -> bxor x (byte_of_N (2 ^ N.of_nat i)) <> x.
Proof.
  intros Hi E. apply (f_equal Byte.to_N) in E.
  rewrite to_N_bxor, to_N_byte_of_N in E.
  assert (Hz : 2 ^ N.of_nat i mod 256 = 0).
  { set (a := Byte.to_N x) in *. set (m := 2 ^ N.of_nat i mod 256) in *.
    assert (Hm : m = N.lxor (N.lxor a m) a).
    { rewrite (N.lxor_comm a m), N.lxor_assoc, N.lxor_nilpotent.
      now rewrite N.lxor_0_r. }
    rewrite Hm, E. apply N.lxor_nilpotent. }
  do 8 (destruct i as [|i]; [discriminate Hz|]). lia.
Qed.

Lemma flip_bit_neq (i : nat) (bs : bytes) :
  (i < 8 * length bs)%nat -> flip_bit i bs <> bs.
Proof.
  revert i. induction bs as [|x bs IH]; intros i Hi; simpl in *; [lia|].
  destruct (Nat.ltb_spec i 8) as [Hlt|Hge]; intro E; injection E as E.
  - now apply (bxor_bit_neq x i).
  - apply (IH (i - 8)%nat); [lia|assumption].
Qed.

Lemma mac_failure_trace (K wrapped : bytes) (c : GCM.t) :
  header_ok (wrapped_header wrapped) = true ->
  GCM.new K (wrapped_nonce wrapped) = inr c ->
  GCM.decrypt_and_verify c (wrapped_ciphertext wrapped) (wrapped_tag wrapped)
  = inl MacCheckFailed ->
  decrypt_db_key K wrapped
  = (decrypt_start
       :: AESNew K (wrapped_nonce wrapped)
       :: DecryptAndVerify (wrapped_ciphertext wrapped) (wrapped_tag wrapped)
       :: decrypt_failure MacCheckFailed,
     inr None).
Proof.
  intros Hh Hc Hdv. rewrite decrypt_db_key_cases. cbv zeta.
  now rewrite Hh, Hc, Hdv.
Qed.

(** Whatever the key, nonce and ciphertext, inverting any one bit of an
    authentic tag is detected. *)
Lemma tag_bit_flip_detected (K header nonce ct tag : bytes) (i : nat) :
  length K = 32%nat -> length header = 3%nat -> header_ok header = true ->
  length nonce = 12%nat -> length tag = 16%nat ->
  tag_verifies K nonce ct tag = true ->
  (i < 128)%nat ->
  outcome (decrypt_db_key K (header ++ nonce ++ ct ++ flip_bit i tag))
  = inr None.
Proof.
  intros HK Hh Hok Hn Ht Hv Hi.
  destruct (new_accepts K nonce (key_size_ok_32 K HK) (nonce_12_nonempty _ Hn))
    as [c Hc].
  unfold tag_verifies in Hv. rewrite Hc in Hv. apply bytes_eqb_eq in Hv.
  assert (Hlen : length (flip_bit i tag) = 16%nat)
    by now rewrite flip_bit_length.
  destruct (layout_of_parts header nonce ct (flip_bit i tag) Hh Hn Hlen)
    as (E1 & E2 & E3 & E4).
  rewrite (mac_failure_trace K _ c); [reflexivity| | |].
  - now rewrite E1.
  - now rewrite E2.
  - rewrite E3, E4. apply decrypt_and_verify_mismatch. rewrite Hv.
    intro E. symmetry in E. revert E. apply flip_bit_neq. lia.
Qed.

(** In the concrete scenario every single-bit flip, in any of the 64
    ciphertext bytes and 16 tag bytes, is rejected. *)
Example scenario_every_bit_flip_rejected :
  forallb (fun i => rejected (decrypt_db_key (repeat x00 32)
                                (scenario_prefix ++ flip_bit i scenario_body)))
          (seq 0 640) = true.
Proof. vm_compute. reflexivity. Qed.

(** In the concrete scenario a key that differs in one bit is rejected. *)
Example scenario_wrong_key_rejected :
  rejected (decrypt_db_key (flip_bit 0 (repeat x00 32))
                           (scenario_prefix ++ scenario_body)) = true.
Proof. vm_compute. reflexivity. Qed.

(** ** Truncated wrapped keys *)

(** C3, as stated, fails: the function has no length check.  A 30-byte
    wrapped key with a recognized header goes to the cipher: the constructor
    is called with the 12-byte nonce, then [decrypt_and_verify] with the empty
    ciphertext and the 15 bytes left as tag, and the failure reported is the
    cipher's "MAC check failed", not a format error. *)
Lemma short_wrapped_key_reaches_cipher :
  let K := repeat x00 32 in
  let wrapped := b "v10" ++ repeat x00 27 in
  (length wrapped < 31)%nat
  /\ decrypt_db_key K wrapped
     = (decrypt_start
          :: AESNew K (repeat x00 12)
          :: DecryptAndVerify [] (repeat x00 15)
          :: decrypt_failure MacCheckFailed,
        inr None)
  /\ cipher_called (trace (decrypt_db_key K wrapped)) = true.
Proof.
  cbv zeta. split; [apply Nat.ltb_lt; reflexivity|].
  split; vm_compute; reflexivity.
Qed.

(** C3 (amended).  For every key and every wrapped key shorter than 31
    bytes, [decrypt_db_key] returns [None]; the cipher is called exactly when
    the header is "v10" or "v11", and the failure is then the cipher's, not a
    format error: "Nonce cannot be empty" when nothing follows the header,
    else "Incorrect AES key length" under a key the cipher does not accept,
    else "MAC check failed" on the empty ciphertext and the short tag.  The
    header error is raised only for an unrecognized header. *)
Theorem short_wrapped_key_fails (K wrapped : bytes) :
  (length wrapped < 31)%nat ->
  outcome (decrypt_db_key K wrapped) = inr None
  /\ cipher_called (trace (decrypt_db_key K wrapped))
     = header_ok (wrapped_header wrapped)
  /\ trace (decrypt_db_key K wrapped)
     = decrypt_start
         :: (if header_ok (wrapped_header wrapped) then
               AESNew K (wrapped_nonce wrapped)
                 :: (if Nat.eqb (length wrapped) 3 then
                       decrypt_failure NonceEmpty
                     else if AES.key_size_ok K then
                       DecryptAndVerify [] (wrapped_tag wrapped)
                         :: decrypt_failure MacCheckFailed
                     else decrypt_failure (IncorrectKeyLength (length K)))
             else decrypt_failure (UnexpectedHeader (wrapped_header wrapped))).
Proof.
  intro Hlen. rewrite decrypt_db_key_cases. cbv zeta.
  destruct (header_ok (wrapped_header wrapped)) eqn:Eh;
    [|repeat split; reflexivity].
  apply header_ok_length in Eh. rewrite wrapped_header_eq, length_firstn in Eh.
  assert (Hn : length (wrapped_nonce wrapped)
               = Nat.min 12 (length wrapped - 3)).
  { now rewrite wrapped_nonce_eq, length_firstn, length_skipn. }
  assert (Hc : wrapped_ciphertext wrapped = []).
  { rewrite wrapped_ciphertext_eq, length_skipn.
    replace (length wrapped - 15 - 16)%nat with 0%nat by lia. reflexivity. }
  unfold GCM.new. rewrite Hn.
  destruct (Nat.eqb_spec (length wrapped) 3) as [E3|E3].
  - rewrite E3. cbn [Nat.sub Nat.min Nat.eqb]. repeat split; reflexivity.
  - destruct (Nat.eqb_spec (Nat.min 12 (length wrapped - 3)) 0) as [E0|_];
      [lia|].
    destruct (AES.key_size_ok K); cbn [negb]; [|repeat split; reflexivity].
    rewrite decrypt_and_verify_short_tag, Hc; [repeat split; reflexivity|].
    pose proof (wrapped_tag_short wrapped Hlen). lia.
Qed.

Lemma short_wrapped_key_fails_witness :
  let K := repeat x00 32 in
  let wrapped := b "v10" ++ repeat x00 27 in
  outcome (decrypt_db_key K wrapped) = inr None
  /\ cipher_called (trace (decrypt_db_key K wrapped))
     = header_ok (wrapped_header wrapped)
  /\ trace (decrypt_db_key K wrapped)
     = decrypt_start
         :: AESNew K (repeat x00 12)
         :: DecryptAndVerify [] (repeat x00 15)
         :: decrypt_failure MacCheckFailed.
Proof.
  intros K wrapped.
  destruct (short_wrapped_key_fails K wrapped) as (H1 & H2 & H3).
  - apply Nat.ltb_lt. reflexivity.
  - split; [exact H1|]. split; [exact H2|]. rewrite H3. reflexivity.
Defined.

(** ** The header gate *)

Lemma header_ok_false (header : bytes) :
  header <> b "v10" -> header <> b "v11" -> header_ok header = false.
Proof.
  intros H10 H11. unfold header_ok.
  destruct (bytes_eqb header (b "v10")) eqn:E10.
  - now apply bytes_eqb_eq in E10.
  - destruct (bytes_eqb header (b "v11")) eqn:E11; [|reflexivity].
    now apply bytes_eqb_eq in E11.
Qed.

Lemma fields_after_header (header rest : bytes) :
  length header = 3%nat ->
  wrapped_header (header ++ rest) = header
  /\ wrapped_nonce (header ++ rest) = firstn 12 rest
  /\ wrapped_ciphertext (header ++ rest)
     = firstn (length (skipn 12 rest) - 16) (skipn 12 rest)
  /\ wrapped_tag (header ++ rest)
     = skipn (length (skipn 12 rest) - 16) (skipn 12 rest).
Proof.
  intro Hh.
  assert (H15 : skipn 15 (header ++ rest) = skipn 12 rest).
  { rewrite skipn_app, Hh, skipn_all2 by lia. reflexivity. }
  repeat split.
  - rewrite wrapped_header_eq, firstn_app, Hh, Nat.sub_diag, firstn_all2 by lia.
    cbn [firstn]. apply app_nil_r.
  - rewrite wrapped_nonce_eq, skipn_app, Hh, Nat.sub_diag, skipn_all2 by lia.
    reflexivity.
  - now rewrite wrapped_ciphertext_eq, H15.
  - now rewrite wrapped_tag_eq, H15.
Qed.

(** C4 (header rejection).  For every key and every wrapped key whose first
    three bytes are neither "v10" nor "v11", [decrypt_db_key] returns [None]
    on the header test: the exception reported is the one raised there, and
    the cipher is never called.  The two recognized headers are treated
    alike: swapping one for the other changes nothing in what the function
    does or returns. *)
Theorem unknown_header_rejected (K wrapped rest : bytes) :
  (wrapped_header wrapped <> b "v10" ->
   wrapped_header wrapped <> b "v11" ->
   decrypt_db_key K wrapped
   = (decrypt_start :: decrypt_failure (UnexpectedHeader (wrapped_header wrapped)),
      inr None)
   /\ cipher_called (trace (decrypt_db_key K wrapped)) = false)
  /\ wrapped_header wrapped = firstn 3 wrapped
  /\ decrypt_db_key K (b "v10" ++ rest) = decrypt_db_key K (b "v11" ++ rest).
Proof.
  split; [|split].
  - intros H10 H11. rewrite decrypt_db_key_cases. cbv zeta.
    rewrite (header_ok_false _ H10 H11). split; reflexivity.
  - apply wrapped_header_eq.
  - rewrite !decrypt_db_key_cases. cbv zeta.
    destruct (fields_after_header (b "v10") rest eq_refl) as (-> & -> & -> & ->).
    destruct (fields_after_header (b "v11") rest eq_refl) as (-> & -> & -> & ->).
    reflexivity.
Qed.

Lemma unknown_header_rejected_witness :
  let K := repeat x00 32 in
  let wrapped := b "v09" ++ repeat x00 12 ++ scenario_body in
  decrypt_db_key K wrapped
  = (decrypt_start :: decrypt_failure (UnexpectedHeader (b "v09")), inr None)
  /\ cipher_called (trace (decrypt_db_key K wrapped)) = false.
Proof.
  intros K wrapped.
  apply (proj1 (unknown_header_rejected K wrapped [])); discriminate.
Defined.

(** ** The length of the master key *)

(** C5, as stated, fails: the function does not check the key length, and
    the cipher accepts the three AES key sizes.  Under a 16-byte key the
    wrapped key below, made with AES-128-GCM, is unwrapped. *)
Lemma short_master_key_accepted :
  let K := repeat x00 16 in
  let wrapped :=
    b "v10" ++ repeat x00 12
      ++ hex "62e9bbaf01d7c2f39249a3d810d39f1996f4cbca282a3842969ce89ef5eaa081416370402f12f5bb41e8d7cdb1f2ca81a82cc37870ef481c1a1fdddda8a2e993"
      ++ hex "8c4f1a32899824965092664247fd9c0f" in
  length K <> 32%nat
  /\ outcome (decrypt_db_key K wrapped)
     = inr (Some "0xaaaaaaaaaaaaaaaaaaaaaaaaaaaaaaaaaaaaaaaaaaaaaaaaaaaaaaaaaaaaaaaa").
Proof.
  cbv zeta. split; [discriminate|]. vm_compute. reflexivity.
Qed.

Lemma key_size_ok_lengths (K : bytes) :
  length K <> 16%nat -> length K <> 24%nat -> length K <> 32%nat ->
  AES.key_size_ok K = false.
Proof.
  unfold AES.key_size_ok. generalize (length K) as n. intros n H16 H24 H32.
  do 33 (destruct n as [|n]; [reflexivity || congruence|]).
  reflexivity.
Qed.

(** C5 (amended).  For every master key whose length is none of 16, 24 and
    32 bytes, [decrypt_db_key] returns [None] whatever the wrapped key holds,
    and [decrypt_and_verify] is never called: when the header is recognized
    the cipher's constructor raises.  (A 16-byte or 24-byte key is accepted
    by the constructor and used, as AES-128 or AES-192.) *)
Theorem bad_key_length_rejected (K wrapped : bytes) :
  length K <> 16%nat -> length K <> 24%nat -> length K <> 32%nat ->
  outcome (decrypt_db_key K wrapped) = inr None
  /\ (forall ct tag,
        ~ In (DecryptAndVerify ct tag) (trace (decrypt_db_key K wrapped)))
  /\ (header_ok (wrapped_header wrapped) = true ->
      wrapped_nonce wrapped <> [] ->
      In (PrintExn "   Details: " (IncorrectKeyLength (length K)))
         (trace (decrypt_db_key K wrapped))).
Proof.
  intros H16 H24 H32.
  pose proof (key_size_ok_lengths K H16 H24 H32) as Hk.
  rewrite decrypt_db_key_cases. cbv zeta.
  destruct (header_ok (wrapped_header wrapped)).
  - rewrite (new_rejects_key K _ Hk). cbn [outcome trace fst snd].
    split; [reflexivity|]. split.
    + intros ct tag [E|[E|[E|[E|[]]]]]; discriminate E.
    + intros _ Hn. destruct (wrapped_nonce wrapped) as [|x n]; [congruence|].
      cbn. tauto.
  - cbn [outcome trace fst snd]. split; [reflexivity|]. split.
    + intros ct tag [E|[E|[E|[]]]]; discriminate E.
    + discriminate.
Qed.

Lemma bad_key_length_rejected_witness :
  let K := repeat x00 31 in
  let wrapped := scenario_prefix ++ scenario_body in
  outcome (decrypt_db_key K wrapped) = inr None
  /\ (forall ct tag,
        ~ In (DecryptAndVerify ct tag) (trace (decrypt_db_key K wrapped)))
  /\ In (PrintExn "   Details: " (IncorrectKeyLength 31))
        (trace (decrypt_db_key K wrapped)).
Proof.
  intros K wrapped.
  destruct (bad_key_length_rejected K wrapped) as (H1 & H2 & H3);
    try discriminate.
  split; [exact H1|]. split; [exact H2|].
  apply H3; [reflexivity|discriminate].
Defined.

(** ** The decoder's errors *)

Lemma utf8_valid_head (b0 : byte) (r0 : bytes) :
  utf8_valid (b0 :: r0)
  = match utf8_head_of b0 r0 with
    | WellFormed n => utf8_valid (skipn n (b0 :: r0))
    | Malformed _ _ => false
    end.
Proof.
  cbn [utf8_valid]. unfold utf8_head_of.
  destruct (Byte.to_N b0 <? 128); [reflexivity|].
  destruct (in_range 194 223 b0).
  { destruct r0 as [|b1 r1]; [reflexivity|]. now destruct (is_cont b1). }
  destruct (in_range 224 239 b0).
  { destruct r0 as [|b1 r1]; [reflexivity|].
    destruct (if Byte.to_N b0 =? 224 then in_range 160 191 b1
              else if Byte.to_N b0 =? 237 then in_range 128 159 b1
              else is_cont b1); cbn [negb andb];
      [|now destruct r1].
    destruct r1 as [|b2 r2]; [reflexivity|]. now destruct (is_cont b2). }
  destruct (in_range 240 244 b0); [|reflexivity].
  destruct r0 as [|b1 r1]; [reflexivity|].
  destruct (if Byte.to_N b0 =? 240 then in_range 144 191 b1
            else if Byte.to_N b0 =? 244 then in_range 128 143 b1
            else is_cont b1); cbn [negb andb];
    [|now destruct r1 as [|b2 [|b3 r3]]].
  destruct r1 as [|b2 r2]; [reflexivity|].
  destruct (is_cont b2); cbn [negb andb]; [|now destruct r2].
  destruct r2 as [|b3 r3]; [reflexivity|]. now destruct (is_cont b3).
Qed.

Lemma utf8_head_span (b0 : byte) (r0 : bytes) :
  match utf8_head_of b0 r0 with
  | WellFormed n => (1 <= n <= S (length r0))%nat
  | Malformed n _ => (1 <= n <= S (length r0))%nat /\ 128 <= Byte.to_N b0
  end.
Proof.
  unfold utf8_head_of.
  destruct (N.ltb_spec (Byte.to_N b0) 128) as [Hlt|Hge]; [cbn; lia|].
  repeat match goal with
         | |- context [if ?c then _ else _] => destruct c
         | |- context [match ?l with [] => _ | _ :: _ => _ end] =>
             destruct l; cbn [length negb]
         end; try split; try lia.
Qed.

Lemma utf8_error_from_valid (fuel pos : nat) (bs : bytes) :
  (length bs <= fuel)%nat ->
  utf8_error_from fuel pos bs = None <-> utf8_valid bs = true.
Proof.
  revert pos bs. induction fuel as [|fuel IH]; intros pos bs Hl.
  - destruct bs; [now split|cbn in Hl; lia].
  - destruct bs as [|b0 r0]; [now split|].
    cbn [utf8_error_from]. rewrite utf8_valid_head.
    pose proof (utf8_head_span b0 r0) as Hs.
    destruct (utf8_head_of b0 r0) as [n|n reason]; [|now split].
    apply IH. rewrite length_skipn. cbn [length] in *. lia.
Qed.

Lemma utf8_error_valid (bs : bytes) :
  utf8_error bs = None <-> utf8_valid bs = true.
Proof. apply utf8_error_from_valid. lia. Qed.

Lemma utf8_error_from_byte (fuel pos : nat) (bs : bytes)
      (start stop : nat) (reason : string) :
  utf8_error_from fuel pos bs = Some (start, stop, reason) ->
  (pos <= start < stop)%nat /\ (stop <= pos + length bs)%nat
  /\ exists x, nth_error bs (start - pos) = Some x /\ 128 <= Byte.to_N x.
Proof.
  revert pos bs. induction fuel as [|fuel IH]; intros pos bs; [discriminate|].
  destruct bs as [|b0 r0]; [discriminate|]. cbn [utf8_error_from].
  pose proof (utf8_head_span b0 r0) as Hs.
  destruct (utf8_head_of b0 r0) as [n|n why].
  - intro H. apply IH in H as (H1 & H2 & x & Hx & H128).
    rewrite length_skipn in H2. cbn [length] in *.
    split; [lia|]. split; [lia|]. exists x. split; [|exact H128].
    rewrite nth_error_skipn in Hx.
    replace (start - pos)%nat with (n + (start - (pos + n)))%nat by lia.
    exact Hx.
  - intros [= <- <- <-]. destruct Hs as [Hn H128]. cbn [length].
    split; [lia|]. split; [lia|]. exists b0.
    rewrite Nat.sub_diag. now split.
Qed.

Lemma utf8_error_byte (bs : bytes) (start stop : nat) (reason : string) :
  utf8_error bs = Some (start, stop, reason) ->
  (start < stop <= length bs)%nat
  /\ exists x, nth_error bs start = Some x /\ 128 <= Byte.to_N x.
Proof.
  intro H. apply utf8_error_from_byte in H as (H1 & H2 & x & Hx & H128).
  rewrite Nat.sub_0_r in Hx. split; [lia|]. now exists x.
Qed.

(** ** The shape of the result *)

(** C7, as stated, fails: the function does not look at the plaintext it
    recovers beyond decoding it.  The wrapped key below is the authentic
    AES-256-GCM encryption of the two characters "hi"; it is unwrapped to
    "0xhi", which is not "0x" followed by 64 hexadecimal characters. *)
Lemma unwrap_returns_other_shapes :
  let K := repeat x00 32 in
  let wrapped :=
    b "v10" ++ repeat x00 12 ++ hex "a6ce"
      ++ hex "ad145cef3e9eeb28f8da0239aef538e5" in
  outcome (decrypt_db_key K wrapped) = inr (Some "0xhi")
  /\ is_database_key "0xhi" = false.
Proof. cbv zeta. split; vm_compute; reflexivity. Qed.

(** C7 (amended).  [decrypt_db_key] never raises.  When it returns a string,
    the string is "0x" followed by the text of the plaintext that AES-GCM
    authenticated under the master key, whatever its length and characters:
    it has the shape of a DatabaseKey exactly when that text is 64
    hexadecimal characters.  Otherwise it returns [None] and shows no key:
    it has printed the start line, the error line and the text of the
    exception only.  The exception is the header error, one of the cipher's
    (empty nonce, key length, MAC check failed), whose texts hold nothing of
    a plaintext, or, for an authenticated plaintext that is not valid UTF-8,
    the UnicodeDecodeError, whose text gives the position of the first
    malformed sequence, the reason, and the first byte of that sequence when
    it is one byte long: a byte that is never ASCII, so no character of a
    key. *)
Theorem unwrap_result_shape (K wrapped : bytes) :
  match outcome (decrypt_db_key K wrapped) with
  | inr (Some s) =>
      exists c pt,
        GCM.new K (wrapped_nonce wrapped) = inr c
        /\ GCM.decrypt_and_verify c (wrapped_ciphertext wrapped)
                                    (wrapped_tag wrapped) = inr pt
        /\ utf8_valid pt = true
        /\ s = ("0x" ++ string_of_list_byte pt)%string
        /\ is_database_key s = is_hex64 (string_of_list_byte pt)
  | inr None =>
      exists e text,
        filter (fun ev => negb (is_cipher_event ev))
               (trace (decrypt_db_key K wrapped))
        = decrypt_start :: decrypt_failure e
        /\ keys_shown (trace (decrypt_db_key K wrapped)) = []
        /\ unwrap_error_text e = Some text
        /\ map printed (decrypt_start :: decrypt_failure e)
           = [Some (start_line Unwrap); Some decrypt_error_line;
              Some ("   Details: " ++ text)%string]
        /\ (e = UnexpectedHeader (wrapped_header wrapped)
            \/ e = NonceEmpty
            \/ e = IncorrectKeyLength (length K)
            \/ e = MacCheckFailed
            \/ exists c pt start stop reason x,
                 GCM.new K (wrapped_nonce wrapped) = inr c
                 /\ GCM.decrypt_and_verify c (wrapped_ciphertext wrapped)
                                             (wrapped_tag wrapped) = inr pt
                 /\ e = UnicodeDecodeError pt
                 /\ utf8_error pt = Some (start, stop, reason)
                 /\ nth_error pt start = Some x
                 /\ 128 <= Byte.to_N x
                 /\ text = unicode_decode_error_text start stop reason x)
  | inl _ => False
  end.
Proof.
  rewrite decrypt_db_key_cases. cbv zeta.
  destruct (header_ok (wrapped_header wrapped)).
  2: { cbn [outcome snd trace fst].
       eexists _, _. split; [reflexivity|]. split; [reflexivity|].
       split; [reflexivity|]. split; [reflexivity|]. now left. }
  destruct (GCM.new K (wrapped_nonce wrapped)) as [e|c] eqn:En.
  { cbn [outcome snd trace fst].
    assert (He : e = NonceEmpty \/ e = IncorrectKeyLength (length K)).
    { unfold GCM.new in En.
      destruct (Nat.eqb (length (wrapped_nonce wrapped)) 0);
        [injection En as <-; now left|].
      destruct (negb (AES.key_size_ok K)); [|discriminate En].
      injection En as <-. now right. }
    destruct He as [-> | ->]; eexists _, _;
      (split; [reflexivity|]); (split; [reflexivity|]);
      (split; [reflexivity|]); (split; [reflexivity|]); auto. }
  destruct (GCM.decrypt_and_verify c _ _) as [e|pt] eqn:Edv.
  { cbn [outcome snd trace fst].
    assert (He : e = MacCheckFailed).
    { unfold GCM.decrypt_and_verify in Edv.
      destruct (bytes_eqb _ _); [discriminate Edv|]. now injection Edv as <-. }
    subst e. eexists _, _. split; [reflexivity|]. split; [reflexivity|].
    split; [reflexivity|]. split; [reflexivity|]. auto. }
  destruct (utf8_valid pt) eqn:Eu.
  { cbn [outcome snd]. exists c, pt. repeat split; auto. }
  cbn [outcome snd trace fst].
  destruct (utf8_error pt) as [[[start stop] reason]|] eqn:Ee.
  2: { apply utf8_error_valid in Ee. congruence. }
  destruct (utf8_error_byte pt start stop reason Ee) as (_ & x & Hx & H128).
  exists (UnicodeDecodeError pt),
         (unicode_decode_error_text start stop reason x).
  assert (Et : unwrap_error_text (UnicodeDecodeError pt)
               = Some (unicode_decode_error_text start stop reason x)).
  { cbn [unwrap_error_text]. rewrite Ee. f_equal. f_equal.
    now apply nth_error_nth. }
  split; [reflexivity|]. split; [reflexivity|]. split; [exact Et|].
  split; [cbn [map printed decrypt_failure decrypt_start]; now rewrite Et|].
  do 4 right. exists c, pt, start, stop, reason, x. repeat split; auto.
Qed.

(** The texts, on examples: the first malformed sequence of two bytes at
    the end of the data, a key of 17 bytes, and a header with a byte that
    [decode('utf-8', 'ignore')] drops. *)
Example unwrap_error_texts :
  unwrap_error_text (UnicodeDecodeError (hex "6162e282"))
  = Some "'utf-8' codec can't decode bytes in position 2-3: unexpected end of data"
  /\ unwrap_error_text (UnicodeDecodeError (b "0123456789ab" ++ hex "ff"))
     = Some "'utf-8' codec can't decode byte 0xff in position 12: invalid start byte"
  /\ unwrap_error_text (IncorrectKeyLength 17)
     = Some "Incorrect AES key length (17 bytes)"
  /\ unwrap_error_text (UnexpectedHeader (hex "76ff39"))
     = Some "Unexpected header format. Expected 'v10' or 'v11', but got v9.".
Proof. repeat split; vm_compute; reflexivity. Qed.

(** ** Traces of sequenced computations *)

Lemma trace_bind {A B : Type} (m : M A) (k : A -> M B) :
  trace (bind m k)
  = trace m ++ match outcome m with
               | inr a => trace (k a)
               | inl _ => []
               end.
Proof.
  destruct m as [tr [e|a]]; simpl; [now rewrite app_nil_r|].
  now destruct (k a).
Qed.

Lemma outcome_bind {A B : Type} (m : M A) (k : A -> M B) :
  outcome (bind m k)
  = match outcome m with
    | inr a => outcome (k a)
    | inl e => inl e
    end.
Proof.
  destruct m as [tr [e|a]]; simpl; [reflexivity|]. now destruct (k a).
Qed.

Lemma trace_try_except {A : Type} (body : M A) (handler : exn -> M A) :
  trace (try_except body handler)
  = trace body ++ match outcome body with
                  | inr _ => []
                  | inl e => trace (handler e)
                  end.
Proof.
  destruct body as [tr [e|a]]; simpl; [|now rewrite app_nil_r].
  now destruct (handler e).
Qed.

Lemma outcome_try_except {A : Type} (body : M A) (handler : exn -> M A) :
  outcome (try_except body handler)
  = match outcome body with
    | inr a => inr a
    | inl e => outcome (handler e)
    end.
Proof.
  destruct body as [tr [e|a]]; simpl; [|reflexivity]. now destruct (handler e).
Qed.

Lemma trace_emit_all (evs : list event) : trace (emit_all evs) = evs.
Proof.
  induction evs as [|ev evs IH]; [reflexivity|].
  cbn [emit_all]. rewrite trace_bind. cbn. now rewrite IH.
Qed.

Lemma outcome_emit_all (evs : list event) : outcome (emit_all evs) = inr tt.
Proof.
  induction evs as [|ev evs IH]; [reflexivity|].
  cbn [emit_all]. rewrite outcome_bind. cbn. exact IH.
Qed.

Lemma Forall_trace_bind {A B : Type} (P : event -> Prop)
      (m : M A) (k : A -> M B) :
  Forall P (trace m) -> (forall a, Forall P (trace (k a))) ->
  Forall P (trace (bind m k)).
Proof.
  intros Hm Hk. rewrite trace_bind. apply Forall_app. split; [assumption|].
  destruct (outcome m); [constructor|apply Hk].
Qed.

Lemma Forall_trace_try_except {A : Type} (P : event -> Prop)
      (body : M A) (handler : exn -> M A) :
  Forall P (trace body) -> (forall e, Forall P (trace (handler e))) ->
  Forall P (trace (try_except body handler)).
Proof.
  intros Hb Hh. rewrite trace_try_except. apply Forall_app. split; [assumption|].
  destruct (outcome body); [apply Hh|constructor].
Qed.

Lemma Forall_trace_call {A : Type} (P : event -> Prop) (ev : event)
      (r : exn + A) :
  P ev -> Forall P (trace (call ev r)).
Proof. intro H. repeat constructor. exact H. Qed.

Lemma trace_getitem (v : json) (k : string) : trace (getitem v k) = [].
Proof.
  destruct v; try reflexivity. simpl. now destruct (members_get k members).
Qed.

Lemma trace_str_arg (v : json) : trace (str_arg v) = [].
Proof. now destruct v. Qed.

Lemma trace_signal_file (w : World) (dir : option string) (name : string) :
  trace (signal_file w dir name) = [].
Proof. now destruct dir. Qed.

(** Events are checked one computation at a time. *)
Ltac trace_forall :=
  repeat first
    [ apply Forall_trace_bind; [|intro]
    | apply Forall_trace_try_except; [|intro]
    | apply Forall_trace_call
    | rewrite trace_getitem
    | rewrite trace_str_arg
    | rewrite trace_signal_file
    | apply Forall_nil
    | progress (cbn [trace fst emit ret raise call get_appdata_path load_json])
    | apply Forall_cons ].

(** Each resolver enters its own stage once, first thing, and then neither
    enters a stage nor shows a key; neither raises. *)
Lemma get_master_key_trace (w : World) :
  exists rest,
    trace (get_master_key w) = Print (start_line MasterKey) :: rest
    /\ Forall (fun ev => quiet ev = true) rest.
Proof.
  unfold get_master_key. rewrite trace_bind. cbn [emit trace outcome fst snd app].
  eexists. split; [reflexivity|].
  trace_forall; reflexivity.
Qed.

Lemma get_wrapped_db_key_trace (w : World) :
  exists rest,
    trace (get_wrapped_db_key w) = Print (start_line WrappedKey) :: rest
    /\ Forall (fun ev => quiet ev = true) rest.
Proof.
  unfold get_wrapped_db_key. rewrite trace_bind.
  cbn [emit trace outcome fst snd app].
  eexists. split; [reflexivity|].
  trace_forall; reflexivity.
Qed.

Lemma decrypt_db_key_trace (K wrapped : bytes) :
  exists rest,
    trace (decrypt_db_key K wrapped) = Print (start_line Unwrap) :: rest
    /\ Forall (fun ev => quiet ev = true) rest.
Proof.
  rewrite decrypt_db_key_cases. cbv zeta.
  destruct (header_ok _); [|eexists; split; [reflexivity|repeat constructor]].
  destruct (GCM.new _ _) as [e|c];
    [eexists; split; [reflexivity|repeat constructor]|].
  destruct (GCM.decrypt_and_verify _ _ _) as [e|pt];
    [eexists; split; [reflexivity|repeat constructor]|].
  destruct (utf8_valid pt); eexists; split; try reflexivity; repeat constructor.
Qed.

Lemma get_master_key_total (w : World) :
  exists r, outcome (get_master_key w) = inr r.
Proof.
  unfold get_master_key. rewrite outcome_bind. cbn [emit outcome snd].
  rewrite outcome_try_except.
  match goal with |- context [match ?o with inl _ => _ | inr _ => _ end] =>
    destruct o end; cbn; eauto.
Qed.

Lemma get_wrapped_db_key_total (w : World) :
  exists r, outcome (get_wrapped_db_key w) = inr r.
Proof.
  unfold get_wrapped_db_key. rewrite outcome_bind. cbn [emit outcome snd].
  rewrite outcome_try_except.
  match goal with |- context [match ?o with inl _ => _ | inr _ => _ end] =>
    destruct o end; cbn; eauto.
Qed.

Lemma decrypt_db_key_total (K wrapped : bytes) :
  outcome (decrypt_db_key K wrapped) = inr None
  \/ exists a s, outcome (decrypt_db_key K wrapped) = inr (Some (String a s)).
Proof.
  rewrite decrypt_db_key_cases. cbv zeta.
  destruct (header_ok _); [|now left].
  destruct (GCM.new _ _) as [e|c]; [now left|].
  destruct (GCM.decrypt_and_verify _ _ _) as [e|pt]; [now left|].
  destruct (utf8_valid pt); [|now left].
  right. now eexists _, _.
Qed.

Lemma runs_app (s : stage) (tr tr' : list event) :
  runs s (tr ++ tr') = (runs s tr + runs s tr')%nat.
Proof. unfold runs. now rewrite filter_app, length_app. Qed.

Lemma keys_shown_app (tr tr' : list event) :
  keys_shown (tr ++ tr') = keys_shown tr ++ keys_shown tr'.
Proof. apply flat_map_app. Qed.

Lemma quiet_runs (s : stage) (tr : list event) :
  Forall (fun ev => quiet ev = true) tr -> runs s tr = 0%nat.
Proof.
  induction 1 as [|ev tr Hev _ IH]; [reflexivity|].
  unfold runs in *. cbn [filter].
  replace (starts s ev) with false; [exact IH|].
  destruct ev; try reflexivity; try discriminate Hev.
  cbn [quiet] in Hev. apply negb_true_iff in Hev.
  apply orb_false_iff in Hev as [Hev H3].
  apply orb_false_iff in Hev as [H1 H2].
  now destruct s.
Qed.

Lemma quiet_keys (tr : list event) :
  Forall (fun ev => quiet ev = true) tr -> keys_shown tr = [].
Proof.
  induction 1 as [|ev tr Hev _ IH]; [reflexivity|].
  cbn [keys_shown flat_map]. fold (keys_shown tr). rewrite IH.
  now destruct ev.
Qed.

Lemma finish_trace (w : World) :
  trace (emit (Print (nl "Script finished.")) ;;
         _ <- call (Input "Press Enter to exit.")
                   (input w "Press Enter to exit.") ;;
         ret tt)
  = footer.
Proof. unfold emit, call, bind, ret. now destruct (input w _). Qed.

Lemma main_trace (w : World) :
  trace (main w)
  = banner ++ trace (get_master_key w)
      ++ match usable (outcome (get_master_key w)) with
         | None => []
         | Some master_key =>
             trace (get_wrapped_db_key w)
               ++ match usable (outcome (get_wrapped_db_key w)) with
                  | None => []
                  | Some wrapped_key =>
                      trace (decrypt_db_key master_key wrapped_key)
                        ++ match outcome (decrypt_db_key master_key wrapped_key)
                           with
                           | inr (Some key) => report key
                           | _ => []
                           end
                  end
         end
      ++ footer.
Proof.
  destruct (get_master_key_total w) as [o1 Eo1].
  destruct (get_wrapped_db_key_total w) as [o2 Eo2].
  pose proof (finish_trace w) as Hf.
  unfold main.
  set (finish := emit (Print (nl "Script finished.")) ;; _) in *.
  clearbody finish.
  rewrite !trace_bind, trace_emit_all, outcome_emit_all, Eo1.
  destruct o1 as [[|x1 mk]|]; cbn [usable];
    rewrite ?trace_bind; cbn [ret trace outcome fst snd app];
    try (now rewrite Hf).
  rewrite !outcome_bind, Eo2.
  destruct o2 as [[|x2 wk]|]; cbn [usable];
    cbn [ret trace outcome fst snd app]; rewrite ?app_nil_r;
    try (now rewrite Hf).
  rewrite trace_bind, outcome_bind.
  destruct (decrypt_db_key_total (x1 :: mk) (x2 :: wk)) as [E3|(a & s & E3)];
    rewrite E3, ?trace_emit_all, ?outcome_emit_all;
    cbn [ret trace outcome fst snd app]; rewrite ?app_nil_r, Hf;
    rewrite <- ?app_assoc; reflexivity.
Qed.

(** C8 (short circuit).  [main] runs the stages in order and stops at the
    first that fails: when the master key is not resolved, its trace is the
    banner, the trace of [get_master_key] and the footer, so that neither
    wrapped-key resolution nor unwrapping is entered; when the wrapped key is
    not resolved, unwrapping is not entered; no stage is entered twice; and
    the key is shown exactly once when unwrapping succeeds, never
    otherwise. *)
Theorem orchestrator_short_circuits (w : World) :
  let tr := trace (main w) in
  let tr1 := trace (get_master_key w) in
  let tr2 := trace (get_wrapped_db_key w) in
  runs MasterKey tr = 1%nat
  /\ match usable (outcome (get_master_key w)) with
     | None =>
         tr = banner ++ tr1 ++ footer
         /\ runs WrappedKey tr = 0%nat /\ runs Unwrap tr = 0%nat
         /\ keys_shown tr = []
     | Some master_key =>
         runs WrappedKey tr = 1%nat
         /\ match usable (outcome (get_wrapped_db_key w)) with
            | None =>
                tr = banner ++ tr1 ++ tr2 ++ footer
                /\ runs Unwrap tr = 0%nat /\ keys_shown tr = []
            | Some wrapped_key =>
                let tr3 := trace (decrypt_db_key master_key wrapped_key) in
                runs Unwrap tr = 1%nat
                /\ match outcome (decrypt_db_key master_key wrapped_key) with
                   | inr (Some key) =>
                       tr = banner ++ tr1 ++ tr2 ++ tr3 ++ report key ++ footer
                       /\ keys_shown tr = [key]
                   | _ =>
                       tr = banner ++ tr1 ++ tr2 ++ tr3 ++ footer
                       /\ keys_shown tr = []
                   end
            end
     end.
Proof.
  cbv zeta.
  destruct (get_master_key_trace w) as (r1 & Et1 & Hq1).
  destruct (get_wrapped_db_key_trace w) as (r2 & Et2 & Hq2).
  assert (Hr1 : forall s, runs s (trace (get_master_key w))
                          = if starts s (Print (start_line MasterKey))
                            then 1%nat else 0%nat).
  { intro s. rewrite Et1. unfold runs. cbn [filter].
    pose proof (quiet_runs s r1 Hq1) as Hz. unfold runs in Hz.
    destruct (starts s _); cbn [length]; now rewrite Hz. }
  assert (Hr2 : forall s, runs s (trace (get_wrapped_db_key w))
                          = if starts s (Print (start_line WrappedKey))
                            then 1%nat else 0%nat).
  { intro s. rewrite Et2. unfold runs. cbn [filter].
    pose proof (quiet_runs s r2 Hq2) as Hz. unfold runs in Hz.
    destruct (starts s _); cbn [length]; now rewrite Hz. }
  assert (Hr3 : forall K wk s, runs s (trace (decrypt_db_key K wk))
                          = if starts s (Print (start_line Unwrap))
                            then 1%nat else 0%nat).
  { intros K wk s. destruct (decrypt_db_key_trace K wk) as (r3 & Et3 & Hq3).
    rewrite Et3. unfold runs. cbn [filter].
    pose proof (quiet_runs s r3 Hq3) as Hz. unfold runs in Hz.
    destruct (starts s _); cbn [length]; now rewrite Hz. }
  assert (Hk1 : keys_shown (trace (get_master_key w)) = []).
  { rewrite Et1. cbn [keys_shown flat_map app]. now apply quiet_keys. }
  assert (Hk2 : keys_shown (trace (get_wrapped_db_key w)) = []).
  { rewrite Et2. cbn [keys_shown flat_map app]. now apply quiet_keys. }
  assert (Hk3 : forall K wk, keys_shown (trace (decrypt_db_key K wk)) = []).
  { intros K wk. destruct (decrypt_db_key_trace K wk) as (r3 & Et3 & Hq3).
    rewrite Et3. cbn [keys_shown flat_map app]. now apply quiet_keys. }
  rewrite main_trace.
  destruct (usable (outcome (get_master_key w))) as [mk|].
  2: { rewrite !runs_app, !keys_shown_app, !Hr1, Hk1. repeat split. }
  destruct (usable (outcome (get_wrapped_db_key w))) as [wk|].
  2: { rewrite !runs_app, !keys_shown_app, !Hr1, !Hr2, Hk1, Hk2.
       rewrite <- !app_assoc. repeat split. }
  destruct (outcome (decrypt_db_key mk wk)) as [e|[key|]];
    rewrite !runs_app, !keys_shown_app, !Hr1, !Hr2, !Hr3, Hk1, Hk2, Hk3;
    rewrite <- ?app_assoc, ?app_nil_r; repeat split.
Qed.

(** ** Where the master key is read from *)

Lemma Forall_main (P : event -> Prop) (w : World) :
  Forall P banner -> Forall P footer -> (forall key, Forall P (report key)) ->
  Forall P (trace (get_master_key w)) ->
  Forall P (trace (get_wrapped_db_key w)) ->
  (forall K wk, Forall P (trace (decrypt_db_key K wk))) ->
  Forall P (trace (main w)).
Proof.
  intros Hb Hf Hr H1 H2 H3. rewrite main_trace.
  repeat (apply Forall_app; split); try assumption.
  destruct (usable _); [|constructor].
  repeat (apply Forall_app; split); try assumption.
  destruct (usable _); [|constructor].
  repeat (apply Forall_app; split); try apply H3.
  destruct (outcome _) as [e|[key|]]; [constructor|apply Hr|constructor].
Qed.

(** C10 (roaming application data).  [get_master_key] asks the environment
    for APPDATA, the roaming directory, and the file it opens is "Local State"
    in the "Signal" folder under it.  The other branch of [get_appdata_path]
    reads LOCALAPPDATA, and no run of the script ever does. *)
Theorem master_key_under_roaming_appdata (w : World) :
  (exists rest,
     trace (get_master_key w)
     = Print (start_line MasterKey)
         :: GetEnv "APPDATA"
         :: match getenv w "APPDATA" with
            | Some dir =>
                OpenRead (path_join w dir ["Signal"; "Local State"]) :: rest
            | None => rest
            end)
  /\ trace (get_appdata_path w true) = [GetEnv "LOCALAPPDATA"]
  /\ Forall (fun ev => ev <> GetEnv "LOCALAPPDATA") (trace (main w)).
Proof.
  split; [|split; [reflexivity|]].
  - unfold get_master_key.
    rewrite trace_bind, trace_try_except, trace_bind.
    cbn [emit get_appdata_path call trace outcome fst snd].
    destruct (getenv w "APPDATA") as [dir|].
    + rewrite trace_bind. cbn [signal_file ret trace outcome fst snd].
      rewrite trace_bind. unfold load_json at 1. rewrite trace_bind.
      cbn [call trace outcome fst snd app].
      rewrite <- !app_assoc. cbn [app]. eexists. reflexivity.
    + cbn [app]. eexists. reflexivity.
  - apply Forall_main.
    + repeat constructor; discriminate.
    + repeat constructor; discriminate.
    + intro key. repeat constructor; discriminate.
    + unfold get_master_key. trace_forall; discriminate.
    + unfold get_wrapped_db_key. trace_forall; discriminate.
    + intros K wk. unfold decrypt_db_key, decode_utf8.
      trace_forall; try discriminate.
      * destruct (negb _); trace_forall.
      * destruct (utf8_valid _); trace_forall.
Qed.

(** ** The protected blob *)

Lemma getitem_pure (v : json) (k : string) :
  getitem v k = ([], outcome (getitem v k)).
Proof.
  destruct v; try reflexivity. simpl. now destruct (members_get k members).
Qed.

(** C6 (prefix stripped unchecked).  Whatever bytes the Base64 field decodes
    to, [get_master_key] drops the first five and hands the rest to
    [CryptUnprotectData] with no entropy, no reserved argument, no prompt and
    flags 0; this is its only call to the protector, and what the protector
    answers is the master key.  The five bytes dropped are never looked at:
    nothing is required of them. *)
Theorem master_key_blob_stripped
        (w : World) (dir text s : string) (state os_crypt : json)
        (blob : bytes) :
  getenv w "APPDATA" = Some dir ->
  open_read w (path_join w dir ["Signal"; "Local State"]) = inr text ->
  json_loads w text = inr state ->
  outcome (getitem state "os_crypt") = inr os_crypt ->
  outcome (getitem os_crypt "encrypted_key") = inr (JString s) ->
  b64decode w s = inr blob ->
  let args := mk_dpapi_args (skipn 5 blob) None None None 0 in
  trace (get_master_key w)
  = [ Print (start_line MasterKey);
      GetEnv "APPDATA";
      OpenRead (path_join w dir ["Signal"; "Local State"]);
      JsonLoad text;
      B64Decode s;
      CryptUnprotectData args ]
      ++ match unprotect w args with
         | inr _ => [Print "   [SUCCESS] Master key decrypted."]
         | inl e => [PrintExn "   [ERROR] Failed to get master key: " e]
         end
  /\ outcome (get_master_key w)
     = inr match unprotect w args with
           | inr r => Some (snd r)
           | inl _ => None
           end.
Proof.
  intros Henv Hopen Hjson Hos Hkey Hb64 args.
  unfold get_master_key, get_appdata_path, signal_file, load_json.
  rewrite Henv. cbn [call bind emit ret]. rewrite Hopen. cbn [bind call app].
  rewrite Hjson. cbn [bind app].
  rewrite (getitem_pure state), Hos. cbn [bind app].
  rewrite (getitem_pure os_crypt), Hkey. cbn [bind app str_arg ret].
  rewrite Hb64. cbn [bind app].
  change (py_slice (Some 5%Z) None blob) with (py_slice (Some (Z.of_nat 5)) None blob).
  rewrite py_slice_suffix. fold args.
  destruct (unprotect w args) as [e|[descr master_key]]; split; reflexivity.
Qed.

(** In the example world the blob is "XXXXXprotected": the protector is
    called on "protected". *)
Lemma master_key_blob_stripped_witness :
  trace (get_master_key example_world)
  = [ Print (start_line MasterKey);
      GetEnv "APPDATA";
      OpenRead "C:/Users/u/AppData/Roaming/Signal/Local State";
      JsonLoad "local state";
      B64Decode "WFhYWFhwcm90ZWN0ZWQ=";
      CryptUnprotectData (mk_dpapi_args (b "protected") None None None 0);
      Print "   [SUCCESS] Master key decrypted." ]
  /\ outcome (get_master_key example_world) = inr (Some (repeat x00 32)).
Proof.
  apply (master_key_blob_stripped example_world
           "C:/Users/u/AppData/Roaming" "local state" "WFhYWFhwcm90ZWN0ZWQ="
           (JObject [("os_crypt",
                      JObject [("encrypted_key",
                                JString "WFhYWFhwcm90ZWN0ZWQ=")])])
           (JObject [("encrypted_key", JString "WFhYWFhwcm90ZWN0ZWQ=")])
           (b "XXXXXprotected"));
    reflexivity.
Defined.

(** The whole script in the example world: the scenario's key is shown
    once. *)
Example main_example :
  keys_shown (trace (main example_world))
  = ["0xaaaaaaaaaaaaaaaaaaaaaaaaaaaaaaaaaaaaaaaaaaaaaaaaaaaaaaaaaaaaaaaa"]
  /\ runs MasterKey (trace (main example_world)) = 1%nat
  /\ runs WrappedKey (trace (main example_world)) = 1%nat
  /\ runs Unwrap (trace (main example_world)) = 1%nat.
Proof. vm_compute. repeat split. Qed.

(** ** The analytics queries and the stored frame *)

(** C9, as stated, fails: on a frame whose timestamps are epoch
    milliseconds, the two time-based queries store the converted column back
    into the frame they were given. *)
Lemma timestamp_query_rewrites_frame :
  let data := [("timestamp", Int64Col [1700000000000%Z]);
               ("contact", ObjectCol ["alice"])] in
  stored (get_message_counts data)
  = [("timestamp", DatetimeCol [1700000000000000000%Z]);
     ("contact", ObjectCol ["alice"])]
  /\ stored (get_message_counts data) <> data
  /\ stored (get_active_hours data) <> data.
Proof. cbv zeta. repeat split; vm_compute; discriminate. Qed.

Lemma get_column_set_other (df : DataFrame) (k name : string) (c : column) :
  name <> k -> get_column (set_column df k c) name = get_column df name.
Proof.
  intro Hne. induction df as [|[k' c'] df IH]; simpl.
  - now rewrite (proj2 (String.eqb_neq name k) Hne).
  - destruct (String.eqb_spec k k') as [<-|Hk]; simpl.
    + now rewrite (proj2 (String.eqb_neq name k) Hne).
    + destruct (String.eqb name k'); [reflexivity|exact IH].
Qed.

Lemma get_column_set_same (df : DataFrame) (k : string) (c : column) :
  get_column (set_column df k c) k = Some c.
Proof.
  induction df as [|[k' c'] df IH]; simpl.
  - now rewrite String.eqb_refl.
  - destruct (String.eqb_spec k k') as [<-|Hk]; simpl.
    + now rewrite String.eqb_refl.
    + now rewrite (proj2 (String.eqb_neq k k') Hk).
Qed.

Lemma n_rows_set (df : DataFrame) (k : string) (c0 c : column) :
  get_column df k = Some c0 -> length (values c) = length (values c0) ->
  n_rows (set_column df k c) = n_rows df.
Proof.
  destruct df as [|[k' c'] df]; simpl; [discriminate|].
  destruct (String.eqb k k'); simpl; [|reflexivity].
  intros [= ->] Hl. exact Hl.
Qed.

Lemma to_datetime_ms_length (ms ns : list Z) :
  to_datetime_ms ms = inr ns -> length ns = length ms.
Proof.
  unfold to_datetime_ms. destruct (forallb _ ms); [|discriminate].
  intros [= <-]. apply length_map.
Qed.

Lemma convert_timestamp_normalized (data : DataFrame) :
  stored (convert_timestamp data) = normalized data
  /\ convert_timestamp (normalized data)
     = (normalized data, result (convert_timestamp data)).
Proof.
  unfold convert_timestamp, normalized.
  destruct (get_column data "timestamp") as [[ms|ns|vals]|] eqn:Ec;
    cbn [is_numeric_dtype stored result fst snd].
  - destruct (to_datetime_ms ms) as [e|ns] eqn:Et;
      cbn [stored result fst snd].
    + now rewrite Ec, Et.
    + now rewrite get_column_set_same.
  - now rewrite Ec.
  - now rewrite Ec.
  - now rewrite Ec.
Qed.

Lemma normalized_other_column (data : DataFrame) (name : string) :
  name <> "timestamp" ->
  get_column (normalized data) name = get_column data name.
Proof.
  intro Hne. unfold normalized.
  destruct (get_column data "timestamp") as [[ms|ns|vals]|]; try reflexivity.
  destruct (to_datetime_ms ms); [reflexivity|].
  now apply get_column_set_other.
Qed.

Lemma normalized_n_rows (data : DataFrame) :
  n_rows (normalized data) = n_rows data.
Proof.
  unfold normalized.
  destruct (get_column data "timestamp") as [[ms|ns|vals]|] eqn:Ec;
    try reflexivity.
  destruct (to_datetime_ms ms) as [e|ns] eqn:Et; [reflexivity|].
  apply (n_rows_set data "timestamp" (Int64Col ms)); [exact Ec|].
  cbn [values]. rewrite !length_map. now apply to_datetime_ms_length.
Qed.

Lemma stored_run (q : query) (data : DataFrame) :
  stored (run q data)
  = match q with
    | MessageCounts | ActiveHours => normalized data
    | _ => data
    end.
Proof.
  destruct (convert_timestamp_normalized data) as [Hs _].
  destruct q; cbn [run].
  - unfold get_message_counts.
    destruct (convert_timestamp data) as [d [e|c]]; [exact Hs|].
    destruct (dt c); exact Hs.
  - unfold get_top_contacts. now destruct (get_column data "contact").
  - unfold get_message_distribution. now destruct (get_column data "type").
  - unfold get_active_hours.
    destruct (convert_timestamp data) as [d [e|c]]; [exact Hs|].
    destruct (dt c); exact Hs.
Qed.

Lemma result_run_normalized (q : query) (data : DataFrame) :
  result (run q (normalized data)) = result (run q data).
Proof.
  destruct (convert_timestamp_normalized data) as [_ Hc].
  destruct q; cbn [run].
  - unfold get_message_counts. rewrite Hc.
    destruct (convert_timestamp data) as [d [e|c]]; cbn [result snd];
      [reflexivity|].
    now destruct (dt c).
  - unfold get_top_contacts.
    rewrite normalized_other_column by discriminate.
    now destruct (get_column data "contact").
  - unfold get_message_distribution.
    rewrite normalized_other_column by discriminate.
    rewrite normalized_n_rows.
    now destruct (get_column data "type").
  - unfold get_active_hours. rewrite Hc.
    destruct (convert_timestamp data) as [d [e|c]]; cbn [result snd];
      [reflexivity|].
    now destruct (dt c).
Qed.

Lemma normalized_idempotent (data : DataFrame) :
  normalized (normalized data) = normalized data.
Proof.
  unfold normalized at 2 3.
  destruct (get_column data "timestamp") as [[ms|ns|vals]|] eqn:Ec;
    try (unfold normalized; now rewrite Ec).
  destruct (to_datetime_ms ms) as [e|ns] eqn:Et.
  - unfold normalized. now rewrite Ec, Et.
  - unfold normalized. now rewrite get_column_set_same.
Qed.

(** The frame a request leaves behind is the converted one, whichever query
    ends it. *)
Lemma generate_analytics_frame (df : DataFrame) :
  stored (generate_analytics df) = normalized df.
Proof.
  unfold generate_analytics.
  pose proof (stored_run MessageCounts df) as H1. cbn [run] in H1.
  destruct (get_message_counts df) as [d1 [e|r1]]; cbn in H1; subst d1;
    [reflexivity|].
  pose proof (stored_run (TopContacts 10) (normalized df)) as H2.
  cbn [run] in H2.
  destruct (get_top_contacts 10 (normalized df)) as [d2 [e|r2]]; cbn in H2;
    subst d2; [reflexivity|].
  pose proof (stored_run MessageDistribution (normalized df)) as H3.
  cbn [run] in H3.
  destruct (get_message_distribution (normalized df)) as [d3 [e|r3]];
    cbn in H3; subst d3; [reflexivity|].
  pose proof (stored_run ActiveHours (normalized df)) as H4. cbn [run] in H4.
  rewrite normalized_idempotent in H4.
  destruct (get_active_hours (normalized df)) as [d4 [e|r4]]; cbn in H4;
    subst d4; reflexivity.
Qed.

Lemma after_cases (qs : list query) (data : DataFrame) :
  after qs data = data \/ after qs data = normalized data.
Proof.
  revert data. induction qs as [|q qs IH]; intro data; [now left|].
  unfold after in *. cbn [fold_left]. rewrite stored_run.
  destruct q; try apply IH;
    destruct (IH (normalized data)) as [E|E]; rewrite E; auto;
    rewrite normalized_idempotent; auto.
Qed.

(** Whatever queries ran before, in whatever order and however often, a
    query answers as on the frame first stored. *)
Lemma result_after_queries (qs : list query) (q : query) (data : DataFrame) :
  result (run q (after qs data)) = result (run q data).
Proof.
  destruct (after_cases qs data) as [E|E]; rewrite E;
    [reflexivity|apply result_run_normalized].
Qed.

(** C9 (amended).  The top-contacts and message-distribution queries leave
    the stored frame as it is.  The message-counts and active-hours queries
    leave behind the frame with its timestamp column converted to datetimes
    when that column is numeric and the conversion succeeds, and the frame as
    it is otherwise; no other column and no row count changes.  No query's
    result depends on which queries ran before it. *)
Theorem queries_frame (data : DataFrame) (q q' : query) :
  stored (run q data)
  = match q with
    | MessageCounts | ActiveHours => normalized data
    | _ => data
    end
  /\ (forall name, name <> "timestamp" ->
      get_column (stored (run q data)) name = get_column data name)
  /\ n_rows (stored (run q data)) = n_rows data
  /\ result (run q' (stored (run q data))) = result (run q' data).
Proof.
  rewrite stored_run. split; [reflexivity|].
  destruct q; repeat split; auto using normalized_other_column,
    normalized_n_rows, result_run_normalized.
Qed.


Lemma queries_frame_witness :
  let data := [("timestamp", Int64Col [1700000000000%Z]);
               ("contact", ObjectCol ["alice"])] in
  stored (run MessageCounts data) = normalized data
  /\ get_column (stored (run MessageCounts data)) "contact"
     = get_column data "contact"
  /\ n_rows (stored (run MessageCounts data)) = n_rows data
  /\ result (run (TopContacts 10) (stored (run MessageCounts data)))
     = result (run (TopContacts 10) data).
Proof.
  intro data.
  destruct (queries_frame data MessageCounts (TopContacts 10))
    as (H1 & H2 & H3 & H4).
  split; [exact H1|]. split; [apply H2; discriminate|].
  split; [exact H3|exact H4].
Defined.

(** ** The two resolvers, step by step *)

Lemma str_arg_pure (v : json) : str_arg v = ([], outcome (str_arg v)).
Proof. now destruct v. Qed.

(** A step without events is replaced by its outcome. *)
Ltac pure_step m lemma :=
  let Hp := fresh "Hp" in
  let t := fresh "t" in
  let o := fresh "o" in
  pose proof lemma as Hp;
  destruct m as [t o]; cbn [outcome snd] in Hp |- *;
  injection Hp as Hp; subst t.

Lemma get_master_key_steps (w : World) :
  get_master_key w =
  let start := Print (start_line MasterKey) in
  let fail := fun (tr : list event) (e : exn) =>
    (start :: tr ++ [PrintExn "   [ERROR] Failed to get master key: " e],
     @inr exn (option bytes) None) in
  match getenv w "APPDATA" with
  | None => fail [GetEnv "APPDATA"] (TypeError "expected str, bytes or os.PathLike object, not NoneType")
  | Some dir =>
      let path := path_join w dir ["Signal"; "Local State"] in
      match open_read w path with
      | inl e => fail [GetEnv "APPDATA"; OpenRead path] e
      | inr text =>
          let read := [GetEnv "APPDATA"; OpenRead path; JsonLoad text] in
          match json_loads w text with
          | inl e => fail read e
          | inr local_state =>
              match outcome (getitem local_state "os_crypt") with
              | inl e => fail read e
              | inr os_crypt =>
                  match outcome (getitem os_crypt "encrypted_key") with
                  | inl e => fail read e
                  | inr v =>
                      match outcome (str_arg v) with
                      | inl e => fail read e
                      | inr s =>
                          match b64decode w s with
                          | inl e => fail (read ++ [B64Decode s]) e
                          | inr blob =>
                              let args :=
                                mk_dpapi_args (skipn 5 blob) None None None 0 in
                              let called :=
                                read ++ [B64Decode s; CryptUnprotectData args] in
                              match unprotect w args with
                              | inl e => fail called e
                              | inr r =>
                                  (start :: called
                                     ++ [Print "   [SUCCESS] Master key decrypted."],
                                   inr (Some (snd r)))
                              end
                          end
                      end
                  end
              end
          end
      end
  end.
Proof.
  unfold get_master_key, get_appdata_path, signal_file, load_json. cbv zeta.
  destruct (getenv w "APPDATA") as [dir|]; [|reflexivity].
  cbn [call bind emit ret].
  destruct (open_read w _) as [e|text]; [reflexivity|]. cbn [bind call app].
  destruct (json_loads w text) as [e|local_state]; [reflexivity|].
  cbn [bind app].
  pure_step (getitem local_state "os_crypt")
            (getitem_pure local_state "os_crypt").
  destruct o as [e|os_crypt]; [reflexivity|]. cbn [bind app].
  pure_step (getitem os_crypt "encrypted_key")
            (getitem_pure os_crypt "encrypted_key").
  destruct o as [e|v]; [reflexivity|]. cbn [bind app].
  pure_step (str_arg v) (str_arg_pure v).
  destruct o as [e|s]; [reflexivity|]. cbn [bind app].
  destruct (b64decode w s) as [e|blob]; [reflexivity|]. cbn [bind app].
  change (py_slice (Some 5%Z) None blob)
    with (py_slice (Some (Z.of_nat 5)) None blob).
  rewrite py_slice_suffix.
  destruct (unprotect w _) as [e|r]; reflexivity.
Qed.

Lemma get_wrapped_db_key_steps (w : World) :
  get_wrapped_db_key w =
  let start := Print (start_line WrappedKey) in
  let fail := fun (tr : list event) (e : exn) =>
    (start :: tr
       ++ [PrintExn "   [ERROR] Failed to get wrapped database key: " e],
     @inr exn (option bytes) None) in
  match getenv w "APPDATA" with
  | None => fail [GetEnv "APPDATA"] (TypeError "expected str, bytes or os.PathLike object, not NoneType")
  | Some dir =>
      let path := path_join w dir ["Signal"; "config.json"] in
      match open_read w path with
      | inl e => fail [GetEnv "APPDATA"; OpenRead path] e
      | inr text =>
          let read := [GetEnv "APPDATA"; OpenRead path; JsonLoad text] in
          match json_loads w text with
          | inl e => fail read e
          | inr config =>
              match outcome (getitem config "encryptedKey") with
              | inl e => fail read e
              | inr v =>
                  match outcome (str_arg v) with
                  | inl e => fail read e
                  | inr s =>
                      match fromhex w s with
                      | inl e => fail (read ++ [FromHex s]) e
                      | inr wrapped =>
                          (start :: read
                             ++ [FromHex s;
                                 Print "   [SUCCESS] Found and decoded wrapped key from config.json."],
                           inr (Some wrapped))
                      end
                  end
              end
          end
      end
  end.
Proof.
  unfold get_wrapped_db_key, get_appdata_path, signal_file, load_json.
  cbv zeta.
  destruct (getenv w "APPDATA") as [dir|]; [|reflexivity].
  cbn [call bind emit ret].
  destruct (open_read w _) as [e|text]; [reflexivity|]. cbn [bind call app].
  destruct (json_loads w text) as [e|config]; [reflexivity|].
  cbn [bind app].
  pure_step (getitem config "encryptedKey")
            (getitem_pure config "encryptedKey").
  destruct o as [e|v]; [reflexivity|]. cbn [bind app].
  pure_step (str_arg v) (str_arg_pure v).
  destruct o as [e|s]; [reflexivity|]. cbn [bind app].
  destruct (fromhex w s) as [e|wrapped]; reflexivity.
Qed.

(** X1.  With APPDATA set, "config.json" readable under its "Signal" folder,
    the JSON holding a string under "encryptedKey" and that string decoding
    as hexadecimal, [get_wrapped_db_key] returns the decoded bytes; it reads
    the environment and that one file, and calls nothing else. *)
Theorem wrapped_key_read_from_config
        (w : World) (dir text s : string) (config : json) (wrapped : bytes) :
  getenv w "APPDATA" = Some dir ->
  open_read w (path_join w dir ["Signal"; "config.json"]) = inr text ->
  json_loads w text = inr config ->
  outcome (getitem config "encryptedKey") = inr (JString s) ->
  fromhex w s = inr wrapped ->
  get_wrapped_db_key w
  = ([ Print (start_line WrappedKey);
       GetEnv "APPDATA";
       OpenRead (path_join w dir ["Signal"; "config.json"]);
       JsonLoad text;
       FromHex s;
       Print "   [SUCCESS] Found and decoded wrapped key from config.json." ],
     inr (Some wrapped)).
Proof.
  intros Henv Hopen Hjson Hkey Hhex.
  rewrite get_wrapped_db_key_steps. cbv zeta.
  rewrite Henv, Hopen, Hjson, Hkey. cbn [str_arg outcome ret snd].
  now rewrite Hhex.
Qed.

Lemma wrapped_key_read_from_config_witness :
  get_wrapped_db_key example_world
  = ([ Print (start_line WrappedKey);
       GetEnv "APPDATA";
       OpenRead "C:/Users/u/AppData/Roaming/Signal/config.json";
       JsonLoad "config";
       FromHex "scenario";
       Print "   [SUCCESS] Found and decoded wrapped key from config.json." ],
     inr (Some (scenario_prefix ++ scenario_body))).
Proof.
  apply (wrapped_key_read_from_config example_world
           "C:/Users/u/AppData/Roaming" "config" "scenario"
           (JObject [("encryptedKey", JString "scenario")]));
    reflexivity.
Defined.

(** X2.  Without APPDATA in the environment both resolvers return [None]:
    the path cannot be built, no file is opened, and the one error line
    printed carries the TypeError of [os.path.join]. *)
Theorem no_appdata_no_file_access (w : World) :
  getenv w "APPDATA" = None ->
  let e := TypeError "expected str, bytes or os.PathLike object, not NoneType" in
  get_master_key w
  = ([ Print (start_line MasterKey); GetEnv "APPDATA";
       PrintExn "   [ERROR] Failed to get master key: " e ],
     inr None)
  /\ get_wrapped_db_key w
     = ([ Print (start_line WrappedKey); GetEnv "APPDATA";
          PrintExn "   [ERROR] Failed to get wrapped database key: " e ],
        inr None).
Proof.
  intros Henv e.
  rewrite get_master_key_steps, get_wrapped_db_key_steps. cbv zeta.
  now rewrite Henv.
Qed.

Lemma no_appdata_no_file_access_witness :
  outcome (get_master_key bare_world) = inr None
  /\ outcome (get_wrapped_db_key bare_world) = inr None.
Proof.
  destruct (no_appdata_no_file_access bare_world eq_refl) as [H1 H2].
  now rewrite H1, H2.
Defined.



(** ** More on unwrapping *)

Lemma key_size_ok_nonce_new (K N : bytes) :
  AES.key_size_ok K = true -> length N = 12%nat ->
  exists c, GCM.new K N = inr c.
Proof.
  intros HK HN. apply new_accepts; [exact HK|]. now apply nonce_12_nonempty.
Qed.

Lemma unwrap_encrypted (header K N pt ct tag : bytes) :
  header_ok header = true -> length N = 12%nat ->
  gcm_encrypt K N pt = Some (ct, tag) ->
  decrypt_db_key K (header ++ N ++ ct ++ tag)
  = if utf8_valid pt
    then ([decrypt_start; AESNew K N; DecryptAndVerify ct tag; decrypt_success],
          inr (Some ("0x" ++ string_of_list_byte pt)%string))
    else (decrypt_start :: AESNew K N :: DecryptAndVerify ct tag
            :: decrypt_failure (UnicodeDecodeError pt),
          inr None).
Proof.
  intros Hh HN Henc. unfold gcm_encrypt in Henc.
  destruct (GCM.new K N) as [e|c] eqn:Hc; [discriminate|].
  injection Henc as Hct Htag.
  pose proof (decrypt_and_verify_encrypt c pt) as Hdv.
  unfold GCM.encrypt_and_digest in Hdv. cbn [fst snd] in Hdv.
  rewrite Hct in Htag, Hdv. rewrite Htag in Hdv.
  assert (Ht : length tag = 16%nat)
    by (rewrite <- Htag; apply compute_mac_length).
  rewrite decrypt_db_key_cases. cbv zeta.
  destruct (layout_of_parts header N ct tag (header_ok_length _ Hh) HN Ht)
    as (-> & -> & -> & ->).
  now rewrite Hh, Hc, Hdv.
Qed.

(** X5.  Authentic is not enough: a wrapped key with a recognized header
    whose tag verifies but whose plaintext is not valid UTF-8 is turned down
    after decryption, with a UnicodeDecodeError under the same error line as
    a failed tag. *)
Theorem non_text_plaintext_rejected (header K N pt ct tag : bytes) :
  header_ok header = true -> length N = 12%nat ->
  gcm_encrypt K N pt = Some (ct, tag) ->
  utf8_valid pt = false ->
  decrypt_db_key K (header ++ N ++ ct ++ tag)
  = (decrypt_start :: AESNew K N :: DecryptAndVerify ct tag
       :: decrypt_failure (UnicodeDecodeError pt),
     inr None).
Proof.
  intros Hh HN Henc Hu. rewrite (unwrap_encrypted header K N pt ct tag Hh HN Henc).
  now rewrite Hu.
Qed.

Lemma non_text_plaintext_rejected_witness :
  outcome (decrypt_db_key (repeat x00 32)
             (b "v11" ++ repeat x00 12 ++ hex "31"
                ++ hex "366363d4d0b9a0636082f2c7fb03895a"))
  = inr None.
Proof.
  rewrite (non_text_plaintext_rejected (b "v11") (repeat x00 32)
             (repeat x00 12) (hex "ff") (hex "31")
             (hex "366363d4d0b9a0636082f2c7fb03895a"));
    [reflexivity|reflexivity|reflexivity|vm_compute; reflexivity|reflexivity].
Defined.

(** X6.  The round trip does not depend on the header, the key size or the
    text being a 64-digit key: for either recognized header, any key the
    cipher accepts (16, 24 or 32 bytes), any 12-byte nonce and any text whose
    bytes are valid UTF-8, unwrapping the wrapped text returns "0x" followed
    by the text. *)
Theorem unwrap_round_trip_any_text (header K N : bytes) (text : string) :
  header_ok header = true ->
  AES.key_size_ok K = true ->
  length N = 12%nat ->
  utf8_valid (list_byte_of_string text) = true ->
  exists wrapped,
    wrap_db_key header K N text = inr wrapped
    /\ outcome (decrypt_db_key K wrapped) = inr (Some ("0x" ++ text)%string).
Proof.
  intros Hh HK HN Hu.
  destruct (key_size_ok_nonce_new K N HK HN) as [c Hc].
  unfold wrap_db_key. rewrite Hc.
  destruct (GCM.encrypt_and_digest c (list_byte_of_string text))
    as [ct tag] eqn:E.
  eexists. split; [reflexivity|].
  rewrite (unwrap_encrypted header K N (list_byte_of_string text) ct tag Hh HN).
  - rewrite Hu. cbn [outcome snd].
    now rewrite string_of_list_byte_of_string.
  - unfold gcm_encrypt. now rewrite Hc, E.
Qed.

Lemma unwrap_round_trip_any_text_witness :
  exists wrapped,
    wrap_db_key (b "v11") (repeat x00 24) (repeat x00 12) "hello" = inr wrapped
    /\ outcome (decrypt_db_key (repeat x00 24) wrapped) = inr (Some "0xhello").
Proof.
  apply (unwrap_round_trip_any_text (b "v11") (repeat x00 24) (repeat x00 12)
           "hello"); reflexivity.
Defined.

Lemma string_of_list_byte_length (bs : bytes) :
  String.length (string_of_list_byte bs) = length bs.
Proof.
  induction bs as [|x bs IH]; [reflexivity|].
  change (string_of_list_byte (x :: bs))
    with (String (ascii_of_byte x) (string_of_list_byte bs)).
  cbn [String.length]. now rewrite IH.
Qed.

Lemma not_cont_ascii (bs : bytes) :
  Forall (fun x => Byte.to_N x < 128) bs ->
  filter (fun x => negb (is_cont x)) bs = bs.
Proof.
  induction 1 as [|x l Hx _ IH]; [reflexivity|].
  cbn [filter].
  assert (E : is_cont x = false).
  { unfold is_cont, in_range.
    destruct (N.leb_spec 128 (Byte.to_N x)) as [H|_]; [lia|reflexivity]. }
  rewrite E. cbn [negb]. now f_equal.
Qed.

(** X7.  A key is returned only for a wrapped key of at least 31 bytes, and
    the string returned, encoded in UTF-8, is as long as the wrapped key less
    29 bytes: the 31 bytes of header, nonce and tag go, the two characters
    "0x" come.  Its length in characters, [len], is at most that, and is
    that when the text is ASCII.  (The bound of 31 is not tested: a shorter
    value fails at the cipher.) *)
Theorem unwrapped_key_length (K wrapped : bytes) (s : string) :
  outcome (decrypt_db_key K wrapped) = inr (Some s) ->
  (31 <= length wrapped)%nat
  /\ length (list_byte_of_string s) = (length wrapped - 29)%nat
  /\ (2 <= py_len s <= length wrapped - 29)%nat
  /\ (Forall (fun x => Byte.to_N x < 128) (list_byte_of_string s) ->
      py_len s = (length wrapped - 29)%nat).
Proof.
  rewrite decrypt_db_key_cases. cbv zeta.
  destruct (header_ok _); [|discriminate].
  destruct (GCM.new _ _) as [e|c]; [discriminate|].
  destruct (GCM.decrypt_and_verify _ _ _) as [e|pt] eqn:Edv; [discriminate|].
  destruct (utf8_valid pt); [|discriminate].
  cbn [outcome snd]. intros [= <-].
  unfold GCM.decrypt_and_verify in Edv.
  destruct (bytes_eqb _ _) eqn:Etag; [|discriminate].
  injection Edv as <-.
  apply bytes_eqb_eq in Etag.
  assert (Ht : length (wrapped_tag wrapped) = 16%nat)
    by now rewrite <- Etag, compute_mac_length.
  rewrite wrapped_tag_eq, !length_skipn in Ht.
  split; [lia|].
  change ("0x" ++ ?t)%string with (String "0" (String "x" t)).
  unfold py_len.
  change (list_byte_of_string (String "0" (String "x" ?t)))
    with (x30 :: x78 :: list_byte_of_string t).
  rewrite list_byte_of_string_of_list_byte.
  set (pt := GCM.crypt c (wrapped_ciphertext wrapped)).
  assert (Hpt : length pt = (length wrapped - 31)%nat).
  { unfold pt. rewrite crypt_length, wrapped_ciphertext_eq.
    rewrite length_firstn, !length_skipn. lia. }
  clearbody pt. cbn [length filter].
  change (is_cont x30) with false. change (is_cont x78) with false.
  cbn [negb length].
  pose proof (filter_length_le (fun x => negb (is_cont x)) pt) as Hle.
  split; [lia|]. split; [lia|].
  intro Hascii. inversion_clear Hascii as [|? ? _ Hascii'].
  inversion_clear Hascii' as [|? ? _ Hascii].
  rewrite (not_cont_ascii pt Hascii). lia.
Qed.

Lemma unwrapped_key_length_witness :
  let wrapped :=
    b "v10" ++ repeat x00 12 ++ hex "0d0ea2bfe190f4f687"
      ++ hex "58260e2af75b6222401228f01fdacef4" in
  let s := string_of_list_byte (b "0x" ++ hex "c3a9e282acf09f9880") in
  (31 <= length wrapped)%nat
  /\ length (list_byte_of_string s) = (length wrapped - 29)%nat
  /\ (2 <= py_len s <= length wrapped - 29)%nat
  /\ py_len s = 5%nat.
Proof.
  intros wrapped s.
  destruct (unwrapped_key_length (repeat x00 32) wrapped s)
    as (H1 & H2 & H3 & _).
  - vm_compute. reflexivity.
  - split; [exact H1|]. split; [exact H2|]. split; [exact H3|].
    vm_compute. reflexivity.
Defined.

(** ** The whole script *)

Lemma count_events_app (p : event -> bool) (tr tr' : list event) :
  count_events p (tr ++ tr')
  = (count_events p tr + count_events p tr')%nat.
Proof. unfold count_events. now rewrite filter_app, length_app. Qed.





Lemma stage_keys_shown (w : World) :
  keys_shown (trace (get_master_key w)) = []
  /\ keys_shown (trace (get_wrapped_db_key w)) = []
  /\ forall K wk, keys_shown (trace (decrypt_db_key K wk)) = [].
Proof.
  destruct (get_master_key_trace w) as (r1 & Et1 & Hq1).
  destruct (get_wrapped_db_key_trace w) as (r2 & Et2 & Hq2).
  rewrite Et1, Et2. cbn [keys_shown flat_map app].
  split; [now apply quiet_keys|]. split; [now apply quiet_keys|].
  intros K wk. destruct (decrypt_db_key_trace K wk) as (r3 & Et3 & Hq3).
  rewrite Et3. cbn [keys_shown flat_map app]. now apply quiet_keys.
Qed.

(** X9.  End to end: when the protector answers a key the cipher accepts,
    and "config.json" holds the wrapping of a text under that key, a
    recognized header and a 12-byte nonce, the script shows "0x" followed by
    the text, once, and no other key. *)
Theorem main_shows_the_unwrapped_key
        (w : World) (header K N : bytes) (text : string) (wrapped : bytes) :
  outcome (get_master_key w) = inr (Some K) ->
  outcome (get_wrapped_db_key w) = inr (Some wrapped) ->
  header_ok header = true ->
  AES.key_size_ok K = true ->
  length N = 12%nat ->
  utf8_valid (list_byte_of_string text) = true ->
  wrap_db_key header K N text = inr wrapped ->
  keys_shown (trace (main w)) = [("0x" ++ text)%string].
Proof.
  intros H1 H2 Hh HK HN Hu Hw.
  destruct (stage_keys_shown w) as (Hk1 & Hk2 & Hk3).
  destruct (key_size_ok_nonce_new K N HK HN) as [c Hc].
  unfold wrap_db_key in Hw. rewrite Hc in Hw.
  destruct (GCM.encrypt_and_digest c (list_byte_of_string text))
    as [ct tag] eqn:E.
  injection Hw as <-.
  assert (Hd : outcome (decrypt_db_key K (header ++ N ++ ct ++ tag))
               = inr (Some ("0x" ++ text)%string)).
  { rewrite (unwrap_encrypted header K N (list_byte_of_string text) ct tag Hh HN).
    - rewrite Hu. cbn [outcome snd]. now rewrite string_of_list_byte_of_string.
    - unfold gcm_encrypt. now rewrite Hc, E. }
  assert (HKne : exists x K', K = x :: K').
  { destruct K as [|x K']; [discriminate HK|eauto]. }
  destruct HKne as (x & K' & ->).
  pose proof (header_ok_length header Hh) as Hl.
  destruct header as [|h0 header']; [discriminate Hl|].
  rewrite main_trace, H1, H2. cbn [usable app].
  cbn [app] in Hd. rewrite Hd.
  rewrite !keys_shown_app, Hk1, Hk2, Hk3. reflexivity.
Qed.

Lemma main_shows_the_unwrapped_key_witness :
  keys_shown (trace (main example_world))
  = ["0xaaaaaaaaaaaaaaaaaaaaaaaaaaaaaaaaaaaaaaaaaaaaaaaaaaaaaaaaaaaaaaaa"].
Proof.
  apply (main_shows_the_unwrapped_key example_world (b "v10") (repeat x00 32)
           (repeat x00 12)
           "aaaaaaaaaaaaaaaaaaaaaaaaaaaaaaaaaaaaaaaaaaaaaaaaaaaaaaaaaaaaaaaa"
           (scenario_prefix ++ scenario_body));
    vm_compute; reflexivity.
Defined.

Ltac break_matches :=
  repeat match goal with
         | |- context [match ?x with inl _ => _ | inr _ => _ end] => destruct x
         | |- context [match ?x with Some _ => _ | None => _ end] => destruct x
         | |- context [if ?x then _ else _] => destruct x
         end.

Lemma get_master_key_calls (w : World) :
  (count_events is_unprotect (trace (get_master_key w)) <= 1)%nat
  /\ (count_events is_open_read (trace (get_master_key w)) <= 1)%nat
  /\ count_events is_aes_new (trace (get_master_key w)) = 0%nat
  /\ count_events is_decrypt_and_verify (trace (get_master_key w)) = 0%nat.
Proof.
  rewrite get_master_key_steps. cbv zeta.
  break_matches; cbn; repeat split; lia.
Qed.

Lemma get_wrapped_db_key_calls (w : World) :
  count_events is_unprotect (trace (get_wrapped_db_key w)) = 0%nat
  /\ (count_events is_open_read (trace (get_wrapped_db_key w)) <= 1)%nat
  /\ count_events is_aes_new (trace (get_wrapped_db_key w)) = 0%nat
  /\ count_events is_decrypt_and_verify (trace (get_wrapped_db_key w)) = 0%nat.
Proof.
  rewrite get_wrapped_db_key_steps. cbv zeta.
  break_matches; cbn; repeat split; lia.
Qed.

Lemma decrypt_db_key_calls (K wk : bytes) :
  count_events is_unprotect (trace (decrypt_db_key K wk)) = 0%nat
  /\ count_events is_open_read (trace (decrypt_db_key K wk)) = 0%nat
  /\ (count_events is_aes_new (trace (decrypt_db_key K wk)) <= 1)%nat
  /\ (count_events is_decrypt_and_verify (trace (decrypt_db_key K wk)) <= 1)%nat
  /\ (count_events is_decrypt_and_verify (trace (decrypt_db_key K wk))
      <= count_events is_aes_new (trace (decrypt_db_key K wk)))%nat.
Proof.
  rewrite decrypt_db_key_cases. cbv zeta.
  break_matches; cbn; repeat split; lia.
Qed.

(** X10.  One run makes at most one call to the protector, opens at most
    two files, builds at most one cipher and verifies at most one tag, the
    tag never without the cipher; and the cipher is built only after both
    resolvers have returned non-empty bytes. *)
Theorem main_call_budget (w : World) :
  let tr := trace (main w) in
  (count_events is_unprotect tr <= 1)%nat
  /\ (count_events is_open_read tr <= 2)%nat
  /\ (count_events is_decrypt_and_verify tr
      <= count_events is_aes_new tr <= 1)%nat
  /\ (usable (outcome (get_master_key w)) = None
      \/ usable (outcome (get_wrapped_db_key w)) = None ->
      count_events is_aes_new tr = 0%nat).
Proof.
  cbv zeta.
  destruct (get_master_key_calls w) as (Ha1 & Ha2 & Ha3 & Ha4).
  destruct (get_wrapped_db_key_calls w) as (Hb1 & Hb2 & Hb3 & Hb4).
  rewrite main_trace.
  set (tr1 := trace (get_master_key w)) in *.
  set (tr2 := trace (get_wrapped_db_key w)) in *.
  destruct (usable (outcome (get_master_key w))) as [mk|].
  2: { clearbody tr1. rewrite !count_events_app. cbn.
       split; [lia|]. split; [lia|]. split; [lia|]. intros _. lia. }
  destruct (usable (outcome (get_wrapped_db_key w))) as [wk|].
  2: { clearbody tr1 tr2. rewrite !count_events_app. cbn.
       split; [lia|]. split; [lia|]. split; [lia|]. intros _. lia. }
  destruct (decrypt_db_key_calls mk wk) as (Hc1 & Hc2 & Hc3 & Hc4 & Hc5).
  assert (Hrep : forall p, (forall key, count_events p (report key) = 0%nat) ->
             count_events p match outcome (decrypt_db_key mk wk) with
                            | inr (Some key) => report key
                            | _ => []
                            end = 0%nat).
  { intros p Hp. destruct (outcome _) as [e|[key|]]; auto. }
  rewrite !count_events_app, !Hrep by reflexivity.
  set (tr3 := trace (decrypt_db_key mk wk)) in *.
  clearbody tr1 tr2 tr3. cbn.
  split; [lia|]. split; [lia|]. split; [lia|].
  intros [E|E]; discriminate E.
Qed.

Lemma main_call_budget_witness :
  count_events is_aes_new (trace (main bare_world)) = 0%nat.
Proof.
  apply (main_call_budget bare_world). left. reflexivity.
Defined.

Tactic Notation "in_trace" ident(H) :=
  unfold banner, footer, report; cbn [trace fst In app]; intro H;
  repeat (destruct H as [H|H]; try discriminate H);
  try contradiction.

Lemma get_master_key_opens (w : World) (path : string) :
  In (OpenRead path) (trace (get_master_key w)) ->
  exists dir, getenv w "APPDATA" = Some dir
              /\ path = path_join w dir ["Signal"; "Local State"].
Proof.
  rewrite get_master_key_steps. cbv zeta.
  destruct (getenv w "APPDATA") as [dir|] eqn:Henv; [|in_trace Hin].
  break_matches; in_trace Hin; injection Hin as <-; eauto.
Qed.

Lemma get_wrapped_db_key_opens (w : World) (path : string) :
  In (OpenRead path) (trace (get_wrapped_db_key w)) ->
  exists dir, getenv w "APPDATA" = Some dir
              /\ path = path_join w dir ["Signal"; "config.json"].
Proof.
  rewrite get_wrapped_db_key_steps. cbv zeta.
  destruct (getenv w "APPDATA") as [dir|] eqn:Henv; [|in_trace Hin].
  break_matches; in_trace Hin; injection Hin as <-; eauto.
Qed.

Lemma decrypt_db_key_opens (K wk : bytes) (path : string) :
  ~ In (OpenRead path) (trace (decrypt_db_key K wk)).
Proof.
  rewrite decrypt_db_key_cases. cbv zeta.
  break_matches; in_trace Hin.
Qed.

(** X11.  The only files a run opens are "Local State" and "config.json" in
    the "Signal" folder under the directory APPDATA names. *)
Theorem main_reads_only_signal_files (w : World) (path : string) :
  In (OpenRead path) (trace (main w)) ->
  exists dir,
    getenv w "APPDATA" = Some dir
    /\ (path = path_join w dir ["Signal"; "Local State"]
        \/ path = path_join w dir ["Signal"; "config.json"]).
Proof.
  rewrite main_trace. intro Hin.
  apply in_app_or in Hin as [Hin|Hin]; [revert Hin; in_trace Hin|].
  apply in_app_or in Hin as [Hin|Hin].
  { destruct (get_master_key_opens w path Hin) as (dir & Henv & ->). eauto. }
  apply in_app_or in Hin as [Hin|Hin]; [|revert Hin; in_trace Hin].
  destruct (usable (outcome (get_master_key w))) as [mk|]; [|contradiction].
  apply in_app_or in Hin as [Hin|Hin].
  { destruct (get_wrapped_db_key_opens w path Hin) as (dir & Henv & ->). eauto. }
  destruct (usable (outcome (get_wrapped_db_key w))) as [wk|]; [|contradiction].
  apply in_app_or in Hin as [Hin|Hin].
  { now apply decrypt_db_key_opens in Hin. }
  destruct (outcome (decrypt_db_key mk wk)) as [e|[key|]];
    revert Hin; in_trace Hin.
Qed.

Lemma main_reads_only_signal_files_witness :
  exists dir,
    getenv example_world "APPDATA" = Some dir
    /\ ("C:/Users/u/AppData/Roaming/Signal/config.json"
        = path_join example_world dir ["Signal"; "Local State"]
        \/ "C:/Users/u/AppData/Roaming/Signal/config.json"
           = path_join example_world dir ["Signal"; "config.json"]).
Proof.
  apply (main_reads_only_signal_files example_world).
  vm_compute. tauto.
Defined.

Lemma get_master_key_quiet_success (w : World) (k : bytes) :
  outcome (get_master_key w) = inr (Some k) ->
  count_events is_error_line (trace (get_master_key w)) = 0%nat.
Proof.
  rewrite get_master_key_steps. cbv zeta.
  break_matches; cbn; intro H; try discriminate H; reflexivity.
Qed.

Lemma get_wrapped_db_key_quiet_success (w : World) (k : bytes) :
  outcome (get_wrapped_db_key w) = inr (Some k) ->
  count_events is_error_line (trace (get_wrapped_db_key w)) = 0%nat.
Proof.
  rewrite get_wrapped_db_key_steps. cbv zeta.
  break_matches; cbn; intro H; try discriminate H; reflexivity.
Qed.

(** X12.  An empty result stops the run without a word: when the protector
    answers the empty byte string, or when the master key is in hand and the
    wrapped key decodes to the empty byte string, [main] goes no further
    (the test is [if x:], not [if x is not None:]), shows no key and prints
    no error line. *)
Theorem empty_key_stops_silently (w : World) :
  outcome (get_master_key w) = inr (Some [])
  \/ (usable (outcome (get_master_key w)) <> None
      /\ outcome (get_wrapped_db_key w) = inr (Some [])) ->
  runs Unwrap (trace (main w)) = 0%nat
  /\ keys_shown (trace (main w)) = []
  /\ count_events is_error_line (trace (main w)) = 0%nat.
Proof.
  intro H.
  destruct (stage_keys_shown w) as (Hk1 & Hk2 & _).
  destruct (get_master_key_trace w) as (r1 & Et1 & Hq1).
  destruct (get_wrapped_db_key_trace w) as (r2 & Et2 & Hq2).
  assert (Hu1 : runs Unwrap (trace (get_master_key w)) = 0%nat).
  { rewrite Et1. unfold runs. cbn [filter starts]. cbn [String.eqb].
    cbn. now apply (quiet_runs Unwrap). }
  assert (Hu2 : runs Unwrap (trace (get_wrapped_db_key w)) = 0%nat).
  { rewrite Et2. unfold runs. cbn. now apply (quiet_runs Unwrap). }
  rewrite main_trace.
  destruct H as [H1|[Hm H2]].
  - pose proof (get_master_key_quiet_success w [] H1) as Hq.
    rewrite H1. cbn [usable].
    rewrite !runs_app, !keys_shown_app, !count_events_app, Hu1, Hk1, Hq.
    repeat split.
  - destruct (usable (outcome (get_master_key w))) as [mk|] eqn:Em;
      [|congruence].
    assert (Hq : count_events is_error_line (trace (get_master_key w)) = 0%nat).
    { destruct (outcome (get_master_key w)) as [e|[[|x k]|]] eqn:Eo;
        try discriminate Em.
      unfold outcome in Eo.
      apply (get_master_key_quiet_success w (x :: k)). exact Eo. }
    pose proof (get_wrapped_db_key_quiet_success w [] H2) as Hq'.
    rewrite H2. cbn [usable].
    rewrite !runs_app, !keys_shown_app, !count_events_app, Hu1, Hu2, Hk1, Hk2,
      Hq, Hq'.
    repeat split.
Qed.

Lemma empty_key_stops_silently_witness :
  runs Unwrap (trace (main empty_key_world)) = 0%nat
  /\ keys_shown (trace (main empty_key_world)) = []
  /\ count_events is_error_line (trace (main empty_key_world)) = 0%nat.
Proof.
  apply (empty_key_stops_silently empty_key_world). left. reflexivity.
Defined.

(** ** Grouping and counting *)

Section AnalyticsProperties.

Local Open Scope Z_scope.

Lemma dict_get_above (k : Z) (d : list (Z * nat)) :
  Forall (fun k' => k < k') (map fst d) -> dict_get k d = None.
Proof.
  induction d as [|[k' n] d IH]; [reflexivity|].
  cbn [map fst dict_get]. intro H. inversion H as [|? ? Hk Hd]; subst.
  destruct (Z.eqb_spec k k'); [lia|]. now apply IH.
Qed.

Lemma bump_sum (k : Z) (d : list (Z * nat)) :
  sum_counts (bump k d) = S (sum_counts d).
Proof.
  induction d as [|[k' n] d IH]; [reflexivity|].
  cbn [bump]. destruct (k <? k'); [reflexivity|].
  destruct (k =? k'); cbn [sum_counts fold_right snd] in *; [lia|].
  fold (sum_counts (bump k d)). fold (sum_counts d). rewrite IH. lia.
Qed.

Lemma bump_keys (k k0 : Z) (d : list (Z * nat)) :
  In k0 (map fst (bump k d)) <-> k0 = k \/ In k0 (map fst d).
Proof.
  induction d as [|[k' n] d IH]; cbn [bump map fst In].
  - intuition.
  - destruct (Z.ltb_spec k k'); [cbn [map fst In]; intuition|].
    destruct (Z.eqb_spec k k'); cbn [map fst In]; [subst; intuition|].
    rewrite IH. intuition.
Qed.

Lemma bump_increasing (k : Z) (d : list (Z * nat)) :
  increasing d -> increasing (bump k d).
Proof.
  unfold increasing. induction d as [|[k' n] d IH]; intro Hd.
  - repeat constructor.
  - cbn [bump]. inversion Hd as [|? ? Hs Hf]; subst.
    destruct (Z.ltb_spec k k').
    + constructor; [exact Hd|]. cbn [map fst]. constructor; [assumption|].
      eapply Forall_impl; [|exact Hf]. cbn. intros; lia.
    + destruct (Z.eqb_spec k k'); [exact Hd|].
      cbn [map fst]. constructor; [now apply IH|].
      apply Forall_forall. intros k0 Hin.
      apply bump_keys in Hin as [->|Hin]; [lia|].
      rewrite Forall_forall in Hf. now apply Hf.
Qed.

Lemma bump_positive (k : Z) (d : list (Z * nat)) :
  positive d -> positive (bump k d).
Proof.
  unfold positive. induction d as [|[k' n] d IH]; intro Hd.
  - repeat constructor.
  - cbn [bump]. inversion Hd as [|? ? Hn Hf]; subst.
    destruct (k <? k'); [constructor; [cbn; lia|exact Hd]|].
    destruct (k =? k'); constructor; cbn in *; auto; lia.
Qed.

Lemma bump_get0 (k k0 : Z) (d : list (Z * nat)) :
  increasing d ->
  get0 k0 (bump k d) = ((if (k0 =? k)%Z then 1 else 0) + get0 k0 d)%nat.
Proof.
  unfold increasing, get0. induction d as [|[k' n] d IH]; intro Hd.
  - cbn [bump dict_get]. now destruct (k0 =? k).
  - inversion Hd as [|? ? Hs Hf]; subst. cbn [bump].
    destruct (Z.ltb_spec k k').
    + cbn [dict_get]. destruct (Z.eqb_spec k0 k); [|reflexivity].
      subst. destruct (Z.eqb_spec k k'); [lia|].
      rewrite dict_get_above; [reflexivity|].
      eapply Forall_impl; [|exact Hf]. cbn. intros; lia.
    + destruct (Z.eqb_spec k k').
      * subst. cbn [dict_get]. destruct (Z.eqb_spec k0 k'); reflexivity.
      * cbn [dict_get]. destruct (Z.eqb_spec k0 k').
        -- subst. destruct (Z.eqb_spec k' k); [lia|reflexivity].
        -- now apply IH.
Qed.

Lemma fold_bump (keys : list Z) (d : list (Z * nat)) :
  increasing d -> positive d ->
  let r := fold_left (fun acc k => bump k acc) keys d in
  increasing r /\ positive r
  /\ sum_counts r = (length keys + sum_counts d)%nat
  /\ (forall k, get0 k r = (count_occ Z.eq_dec keys k + get0 k d)%nat)
  /\ (forall k, In k (map fst r) <-> In k keys \/ In k (map fst d)).
Proof.
  revert d. induction keys as [|k keys IH]; intros d Hi Hp; cbn [fold_left].
  - cbv zeta. split; [exact Hi|]. split; [exact Hp|].
    split; [reflexivity|]. split; [reflexivity|].
    intro k. cbn [In]. tauto.
  - destruct (IH (bump k d) (bump_increasing k d Hi) (bump_positive k d Hp))
      as (H1 & H2 & H3 & H4 & H5).
    cbv zeta. split; [exact H1|]. split; [exact H2|].
    split; [rewrite H3, bump_sum; cbn [length]; lia|].
    split.
    + intro k0. rewrite H4, bump_get0 by assumption. cbn [count_occ].
      destruct (Z.eq_dec k k0); destruct (Z.eqb_spec k0 k); subst; lia.
    + intro k0. rewrite H5, bump_keys. cbn [In]. intuition.
Qed.

Lemma positive_get (k : Z) (d : list (Z * nat)) :
  positive d -> dict_get k d = entry (get0 k d).
Proof.
  unfold positive, get0. induction d as [|[k' n] d IH]; intro Hp;
    [reflexivity|].
  inversion Hp as [|? ? Hn Hf]; subst. cbn [dict_get].
  destruct (k =? k'); [|now apply IH].
  cbn in Hn. destruct n; [lia|reflexivity].
Qed.

(** [groupby(...).size()]: what the grouping holds. *)
Lemma group_sizes_spec (keys : list Z) :
  increasing (group_sizes keys)
  /\ sum_counts (group_sizes keys) = length keys
  /\ (forall k, dict_get k (group_sizes keys)
                = entry (count_occ Z.eq_dec keys k))
  /\ (forall k, In k (map fst (group_sizes keys)) <-> In k keys).
Proof.
  destruct (fold_bump keys [] (SSorted_nil _) (Forall_nil _))
    as (H1 & H2 & H3 & H4 & H5).
  unfold group_sizes. repeat split; auto.
  - rewrite H3. cbn. lia.
  - intro k. rewrite positive_get by assumption. rewrite H4. cbn.
    now rewrite Nat.add_0_r.
  - intro H. apply H5 in H. cbn in H. tauto.
  - intro H. apply H5. now left.
Qed.

(** ** The time-based queries *)

Lemma sum_counts_map_keys {K K' : Type} (f : K -> K') (d : list (K * nat)) :
  sum_counts (map (fun kn => (f (fst kn), snd kn)) d) = sum_counts d.
Proof.
  unfold sum_counts. induction d as [|[k n] d IH]; [reflexivity|].
  cbn [map fold_right fst snd]. now rewrite IH.
Qed.

Lemma time_queries_cases (data : DataFrame) :
  match timestamps data with
  | Some ns =>
      result (get_message_counts data)
      = inr (mk_message_counts
               (map (fun kn => (date_of_day (fst kn), snd kn))
                    (group_sizes (map day_number ns)))
               (group_sizes (map hour_of ns)))
      /\ result (get_active_hours data)
         = inr (mk_active_hours
                  (group_sizes (map hour_of ns))
                  (map fst
                     (filter (fun kn =>
                                Nat.eqb (snd kn)
                                        (max_count (group_sizes (map hour_of ns))))
                             (group_sizes (map hour_of ns)))))
  | None =>
      let e := match get_column data "timestamp" with
               | None => ColumnKeyError "timestamp"
               | Some (ObjectCol _) => DtAccessorError
               | Some _ => OutOfBoundsDatetime
               end in
      get_message_counts data = (data, inl e)
      /\ get_active_hours data = (data, inl e)
  end.
Proof.
  unfold timestamps, get_message_counts, get_active_hours, convert_timestamp.
  destruct (get_column data "timestamp") as [[ms|ns|vals]|];
    cbn [is_numeric_dtype]; try (split; reflexivity).
  destruct (to_datetime_ms ms) as [e|ns] eqn:Et; [|split; reflexivity].
  unfold to_datetime_ms in Et. destruct (forallb _ ms); [discriminate|].
  injection Et as <-. split; reflexivity.
Qed.

(** X13.  On a frame whose timestamp column is complete and is one of
    datetimes, or of epoch milliseconds that fit the nanosecond range,
    [get_message_counts] returns, and what it returns counts the messages:
    under each hour of the day the number of messages sent in that hour,
    hours with no message left out, hours ascending and within 0..23; the
    counts by hour and the counts by day each add up to the number of
    messages. *)
Theorem message_counts_are_counts (data : DataFrame) (ns : list Z) :
  timestamps data = Some ns ->
  exists r,
    result (get_message_counts data) = inr r
    /\ (forall h, dict_get h (by_hour r)
                  = entry (count_occ Z.eq_dec (map hour_of ns) h))
    /\ increasing (by_hour r)
    /\ Forall (fun kn => 0 <= fst kn < 24) (by_hour r)
    /\ sum_counts (by_hour r) = length ns
    /\ sum_counts (by_day r) = length ns.
Proof.
  intro Ht. pose proof (time_queries_cases data) as Hc. rewrite Ht in Hc.
  destruct Hc as [Hc _]. eexists. split; [exact Hc|].
  cbn [by_hour by_day].
  destruct (group_sizes_spec (map hour_of ns)) as (Hi & Hs & Hg & Hk).
  destruct (group_sizes_spec (map day_number ns)) as (_ & Hsd & _ & _).
  split; [exact Hg|]. split; [exact Hi|].
  split; [|split].
  - apply Forall_forall. intros [k n] Hin.
    assert (Hin' : In k (map fst (group_sizes (map hour_of ns))))
      by (apply in_map_iff; now exists (k, n)).
    apply Hk, in_map_iff in Hin' as (t & <- & _). cbn [fst].
    unfold hour_of. apply Z.mod_pos_bound. lia.
  - now rewrite Hs, length_map.
  - now rewrite sum_counts_map_keys, Hsd, length_map.
Qed.

Lemma message_counts_are_counts_witness :
  exists r,
    result (get_message_counts
              [("timestamp", Int64Col [0; 3600000; 3600001])]) = inr r
    /\ (forall h, dict_get h (by_hour r)
                  = entry (count_occ Z.eq_dec
                             (map hour_of [0; 3600000000000; 3600001000000])
                             h))
    /\ increasing (by_hour r)
    /\ Forall (fun kn => 0 <= fst kn < 24) (by_hour r)
    /\ sum_counts (by_hour r) = 3%nat
    /\ sum_counts (by_day r) = 3%nat.
Proof.
  apply (message_counts_are_counts
           [("timestamp", Int64Col [0; 3600000; 3600001])]
           [0; 3600000000000; 3600001000000]).
  vm_compute. reflexivity.
Defined.



Lemma increasing_in_get (k : Z) (n : nat) (d : list (Z * nat)) :
  increasing d -> (In (k, n) d <-> dict_get k d = Some n).
Proof.
  unfold increasing. induction d as [|[k' n'] d IH]; intro Hd.
  - cbn. split; [tauto|discriminate].
  - inversion Hd as [|? ? Hs Hf]; subst. cbn [In dict_get].
    destruct (Z.eqb_spec k k').
    + subst. split.
      * intros [[= ->]|Hin]; [reflexivity|].
        rewrite Forall_forall in Hf.
        assert (k' < k') by (apply Hf, in_map_iff; now exists (k', n)). lia.
      * intros [= ->]. now left.
    + rewrite <- IH by assumption. split; [|tauto].
      intros [[= <- <-]|Hin]; [congruence|assumption].
Qed.

Lemma max_count_upper (d : list (Z * nat)) (k : Z) (n : nat) :
  In (k, n) d -> (n <= max_count d)%nat.
Proof.
  induction d as [|[k' n'] d IH]; [contradiction|].
  cbn [In max_count fold_right snd]. fold (max_count d).
  intros [[= -> ->]|Hin]; [lia|]. specialize (IH Hin). lia.
Qed.

Lemma max_count_least (d : list (Z * nat)) (n : nat) :
  (forall k m, In (k, m) d -> (m <= n)%nat) -> (max_count d <= n)%nat.
Proof.
  induction d as [|[k' n'] d IH]; intro H; [cbn; lia|].
  cbn [max_count fold_right snd]. fold (max_count d).
  apply Nat.max_lub; [apply (H k'); now left|].
  apply IH. intros k m Hin. apply (H k). now right.
Qed.

Lemma max_count_attained (d : list (Z * nat)) :
  d <> [] -> exists k n, In (k, n) d /\ n = max_count d.
Proof.
  induction d as [|[k n] d IH]; [congruence|]. intros _.
  cbn [max_count fold_right snd]. fold (max_count d).
  destruct d as [|kn d'].
  - exists k, n. split; [now left|]. cbn. lia.
  - destruct IH as (k0 & n0 & Hin & Hmax); [discriminate|].
    destruct (Nat.le_gt_cases n0 n).
    + exists k, n. split; [now left|]. lia.
    + exists k0, n0. split; [now right|]. lia.
Qed.

(** X15.  The peak hours of [get_active_hours] are exactly the hours whose
    count no other hour exceeds; there is none only when there is no message
    at all. *)
Theorem peak_hours_are_the_busiest (data : DataFrame) (r : active_hours) :
  result (get_active_hours data) = inr r ->
  (forall h,
     In h (peak_hours r) <->
     exists n, dict_get h (hour_distribution r) = Some n
               /\ forall h' n', dict_get h' (hour_distribution r) = Some n' ->
                                (n' <= n)%nat)
  /\ (peak_hours r = [] <-> hour_distribution r = []).
Proof.
  intro Hr. pose proof (time_queries_cases data) as Hc.
  destruct (timestamps data) as [ns|].
  2: { destruct Hc as [_ Hc]. rewrite Hc in Hr. discriminate Hr. }
  destruct Hc as [_ Hc]. rewrite Hc in Hr. injection Hr as <-.
  cbn [peak_hours hour_distribution].
  destruct (group_sizes_spec (map hour_of ns)) as (Hi & _ & _ & _).
  set (d := group_sizes (map hour_of ns)) in *. clearbody d.
  split.
  - intro h. rewrite in_map_iff. split.
    + intros ([k n] & <- & Hin). apply filter_In in Hin as [Hin Hmax].
      cbn [fst snd] in *. apply Nat.eqb_eq in Hmax.
      exists n. split; [now apply increasing_in_get|].
      intros h' n' Hg. apply increasing_in_get in Hg; [|assumption].
      rewrite Hmax. now apply (max_count_upper d h').
    + intros (n & Hg & Hmax). exists (h, n). split; [reflexivity|].
      apply increasing_in_get in Hg; [|assumption].
      apply filter_In. split; [assumption|]. cbn [snd]. apply Nat.eqb_eq.
      apply Nat.le_antisymm; [now apply (max_count_upper d h)|].
      apply max_count_least. intros k m Hin. apply (Hmax k).
      now apply increasing_in_get.
  - split; [|now intros ->].
    intro He. destruct d as [|kn d']; [reflexivity|]. exfalso.
    destruct (max_count_attained (kn :: d')) as (k0 & n0 & Hin & Hmax);
      [discriminate|].
    assert (Hp : In k0 (map fst (filter (fun kn0 =>
                    Nat.eqb (snd kn0) (max_count (kn :: d'))) (kn :: d')))).
    { apply in_map_iff. exists (k0, n0). split; [reflexivity|].
      apply filter_In. split; [assumption|]. cbn [snd]. now apply Nat.eqb_eq. }
    rewrite He in Hp. contradiction.
Qed.

Lemma peak_hours_are_the_busiest_witness :
  (forall h,
     In h [1] <->
     exists n, dict_get h [(0, 1%nat); (1, 2%nat)] = Some n
               /\ forall h' n', dict_get h' [(0, 1%nat); (1, 2%nat)] = Some n' ->
                                (n' <= n)%nat)
  /\ ([1] = [] <-> [(0, 1%nat); (1, 2%nat)] = []).
Proof.
  apply (peak_hours_are_the_busiest
           [("timestamp", Int64Col [0; 3600000; 3600001])]
           (mk_active_hours [(0, 1%nat); (1, 2%nat)] [1])).
  vm_compute. reflexivity.
Defined.

(** ** Counting values *)

Lemma value_eqb_eq (u v : value) : value_eqb u v = true <-> u = v.
Proof.
  destruct u, v; cbn; try (split; [discriminate|congruence]).
  - rewrite Z.eqb_eq. split; congruence.
  - rewrite Z.eqb_eq. split; congruence.
  - rewrite String.eqb_eq. split; congruence.
Qed.

Lemma value_eqb_refl (v : value) : value_eqb v v = true.
Proof. now apply value_eqb_eq. Qed.

Lemma value_eqb_neq (u v : value) : u <> v -> value_eqb u v = false.
Proof.
  intro H. destruct (value_eqb u v) eqn:E; [|reflexivity].
  now apply value_eqb_eq in E.
Qed.

Lemma cnt_cons (v : value) (kn : value * nat) (d : list (value * nat)) :
  cnt v (kn :: d)
  = ((if value_eqb v (fst kn) then snd kn else 0) + cnt v d)%nat.
Proof.
  unfold cnt, sum_counts. cbn [filter].
  now destruct (value_eqb v (fst kn)).
Qed.

Lemma tally_cnt (v v0 : value) (d : list (value * nat)) :
  cnt v0 (tally v d) = ((if value_eqb v0 v then 1 else 0) + cnt v0 d)%nat.
Proof.
  induction d as [|[v' n] d IH].
  - cbn [tally]. rewrite cnt_cons. cbn [fst snd]. reflexivity.
  - cbn [tally]. destruct (value_eqb v v') eqn:E.
    + apply value_eqb_eq in E. subst v'. rewrite !cnt_cons. cbn [fst snd].
      destruct (value_eqb v0 v); lia.
    + rewrite !cnt_cons, IH. cbn [fst snd]. lia.
Qed.

Lemma tally_keys (v v0 : value) (d : list (value * nat)) :
  In v0 (map fst (tally v d)) <-> v0 = v \/ In v0 (map fst d).
Proof.
  induction d as [|[v' n] d IH]; cbn [tally map fst In].
  - intuition.
  - destruct (value_eqb v v') eqn:E; cbn [map fst In].
    + apply value_eqb_eq in E. subst. intuition.
    + rewrite IH. intuition.
Qed.

Lemma tally_nodup (v : value) (d : list (value * nat)) :
  NoDup (map fst d) -> NoDup (map fst (tally v d)).
Proof.
  induction d as [|[v' n] d IH]; intro Hd.
  - repeat constructor. intros [].
  - cbn [tally]. inversion Hd as [|? ? Hn Hd']; subst.
    destruct (value_eqb v v') eqn:E; [exact Hd|].
    cbn [map fst]. constructor; [|now apply IH].
    rewrite tally_keys. intros [->|Hin]; [|contradiction].
    now rewrite value_eqb_refl in E.
Qed.

Lemma tally_positive (v : value) (d : list (value * nat)) :
  Forall (fun kn => (1 <= snd kn)%nat) d ->
  Forall (fun kn => (1 <= snd kn)%nat) (tally v d).
Proof.
  induction d as [|[v' n] d IH]; intro Hd.
  - repeat constructor.
  - cbn [tally]. inversion Hd; subst.
    destruct (value_eqb v v'); constructor; cbn in *; auto; lia.
Qed.

Lemma tally_sum (v : value) (d : list (value * nat)) :
  sum_counts (tally v d) = S (sum_counts d).
Proof.
  unfold sum_counts. induction d as [|[v' n] d IH]; [reflexivity|].
  cbn [tally]. destruct (value_eqb v v'); cbn [fold_right snd]; lia.
Qed.

Lemma fold_tally (vals : list value) (d : list (value * nat)) :
  NoDup (map fst d) -> Forall (fun kn => (1 <= snd kn)%nat) d ->
  let r := fold_left (fun acc v => tally v acc) vals d in
  NoDup (map fst r)
  /\ Forall (fun kn => (1 <= snd kn)%nat) r
  /\ sum_counts r = (length vals + sum_counts d)%nat
  /\ (forall v, cnt v r = (occurrences v vals + cnt v d)%nat).
Proof.
  revert d. induction vals as [|v vals IH]; intros d Hn Hp; cbn [fold_left].
  - cbv zeta. repeat split; auto.
  - destruct (IH (tally v d) (tally_nodup v d Hn) (tally_positive v d Hp))
      as (H1 & H2 & H3 & H4).
    cbv zeta. split; [exact H1|]. split; [exact H2|].
    split; [rewrite H3, tally_sum; cbn [length]; lia|].
    intro v0. rewrite H4, tally_cnt. unfold occurrences. cbn [filter].
    destruct (value_eqb v0 v); cbn [length]; lia.
Qed.

Lemma insert_desc_perm (x : value * nat) (l : list (value * nat)) :
  Permutation (insert_desc x l) (x :: l).
Proof.
  induction l as [|y l IH]; [reflexivity|].
  cbn [insert_desc]. destruct (Nat.ltb (snd y) (snd x)); [reflexivity|].
  rewrite IH. apply perm_swap.
Qed.

Lemma insert_desc_descending (x : value * nat) (l : list (value * nat)) :
  descending l -> descending (insert_desc x l).
Proof.
  unfold descending. induction l as [|y l IH]; intro Hl.
  - repeat constructor.
  - cbn [insert_desc]. inversion Hl as [|? ? Hs Hf]; subst.
    destruct (Nat.ltb_spec (snd y) (snd x)).
    + constructor; [exact Hl|]. constructor; [lia|].
      eapply Forall_impl; [|exact Hf]. cbn. intros; lia.
    + constructor; [now apply IH|].
      apply Forall_forall. intros z Hz.
      apply (Permutation_in _ (insert_desc_perm x l)) in Hz.
      destruct Hz as [<-|Hz]; [lia|].
      rewrite Forall_forall in Hf. now apply Hf.
Qed.

Lemma fold_insert_desc (l acc : list (value * nat)) :
  descending acc ->
  descending (fold_left (fun a x => insert_desc x a) l acc)
  /\ Permutation (fold_left (fun a x => insert_desc x a) l acc) (l ++ acc).
Proof.
  revert acc. induction l as [|x l IH]; intros acc Ha; cbn [fold_left].
  - split; [exact Ha|reflexivity].
  - destruct (IH (insert_desc x acc) (insert_desc_descending x acc Ha))
      as [H1 H2].
    split; [exact H1|]. rewrite H2. cbn [app].
    rewrite insert_desc_perm. symmetry. apply Permutation_middle.
Qed.

Lemma sum_counts_perm (l l' : list (value * nat)) :
  Permutation l l' -> sum_counts l = sum_counts l'.
Proof.
  unfold sum_counts. induction 1; cbn [fold_right]; lia.
Qed.

Lemma cnt_perm (v : value) (l l' : list (value * nat)) :
  Permutation l l' -> cnt v l = cnt v l'.
Proof.
  induction 1 as [|x l l' _ IH|x y l|l l' l'' _ IH1 _ IH2];
    rewrite ?cnt_cons; lia.
Qed.

Lemma cnt_absent (v : value) (d : list (value * nat)) :
  ~ In v (map fst d) -> cnt v d = 0%nat.
Proof.
  induction d as [|[v' n] d IH]; intro H; [reflexivity|].
  rewrite cnt_cons. cbn [fst snd map In] in *.
  rewrite value_eqb_neq by (intro; subst; tauto).
  rewrite IH by tauto. reflexivity.
Qed.

Lemma nodup_in_cnt (v : value) (n : nat) (d : list (value * nat)) :
  NoDup (map fst d) -> Forall (fun kn => (1 <= snd kn)%nat) d ->
  (In (v, n) d <-> cnt v d = n /\ (0 < n)%nat).
Proof.
  induction d as [|[v' n'] d IH]; intros Hn Hp.
  - cbn. split; [tauto|]. intros [<- H]. lia.
  - inversion Hn as [|? ? Hnot Hn']; subst.
    inversion Hp as [|? ? Hpos Hp']; subst. cbn [snd] in Hpos.
    rewrite cnt_cons. cbn [fst snd In].
    destruct (value_eqb v v') eqn:E.
    + apply value_eqb_eq in E. subst v'.
      rewrite (cnt_absent v d Hnot). split.
      * intros [[= ->]|Hin]; [lia|].
        exfalso. apply Hnot. apply in_map_iff. now exists (v, n).
      * intros [<- _]. left. f_equal. lia.
    + rewrite <- IH by assumption. split; [|tauto].
      intros [[= <- <-]|Hin]; [|assumption].
      now rewrite value_eqb_refl in E.
Qed.

(** [value_counts()]: each distinct value once, under the number of times it
    occurs, counts descending. *)
Lemma value_counts_spec (c : column) :
  NoDup (map fst (value_counts c))
  /\ descending (value_counts c)
  /\ sum_counts (value_counts c) = length (values c)
  /\ (forall v n, In (v, n) (value_counts c)
                  <-> n = occurrences v (values c) /\ (0 < n)%nat).
Proof.
  unfold value_counts.
  destruct (fold_tally (values c) [] (NoDup_nil _) (Forall_nil _))
    as (H1 & H2 & H3 & H4).
  set (T := fold_left (fun acc v => tally v acc) (values c) []) in *.
  destruct (fold_insert_desc T [] (SSorted_nil _)) as [Hd Hp].
  rewrite app_nil_r in Hp.
  assert (Hn : NoDup (map fst (fold_left (fun a x => insert_desc x a) T []))).
  { eapply Permutation_NoDup; [|exact H1].
    apply Permutation_map. now symmetry. }
  assert (Hpos : Forall (fun kn => (1 <= snd kn)%nat)
                        (fold_left (fun a x => insert_desc x a) T [])).
  { eapply Permutation_Forall; [|exact H2]. now symmetry. }
  split; [exact Hn|]. split; [exact Hd|].
  split.
  - rewrite (sum_counts_perm _ _ Hp), H3. cbn. lia.
  - intros v n. rewrite (nodup_in_cnt v n _ Hn Hpos).
    rewrite (cnt_perm v _ _ Hp), H4.
    unfold cnt at 1. cbn. rewrite Nat.add_0_r. intuition congruence.
Qed.

(** ** Contacts and message types *)





(** X17.  [get_message_distribution] never raises and never touches the
    stored frame.  Without a "type" column it returns the error entry
    "Message type column not found"; with one, it lists every distinct type
    once under the number of its messages, counts descending, and gives as
    the total the number of rows of the frame, not the sum of the counts: on
    a rectangular frame the counts add up to no more than the total. *)
Theorem message_distribution_counts (data : DataFrame) :
  match get_column data "type" with
  | None =>
      get_message_distribution data
      = (data, inr (DistributionError "Message type column not found"))
  | Some c =>
      exists types,
        get_message_distribution data
        = (data, inr (Distribution types (n_rows data)))
        /\ NoDup (map fst types)
        /\ descending types
        /\ (forall v k, In (v, k) types
                        <-> k = occurrences v (values c) /\ (0 < k)%nat)
        /\ (rectangular data -> (sum_counts types <= n_rows data)%nat)
  end.
Proof.
  unfold get_message_distribution.
  destruct (get_column data "type") as [c|] eqn:Ec; [|reflexivity].
  destruct (value_counts_spec c) as (Hn & Hd & Hs & Hin).
  exists (value_counts c).
  split; [reflexivity|]. split; [exact Hn|]. split; [exact Hd|].
  split; [exact Hin|].
  intro Hrect. rewrite Hs. apply Nat.eq_le_incl.
  unfold rectangular in Hrect. rewrite Forall_forall in Hrect.
  clear - Ec Hrect. revert Hrect. generalize (n_rows data) as rows.
  induction data as [|[k c'] data IH]; [discriminate|].
  intros rows Hrect. cbn [get_column] in Ec.
  destruct (String.eqb "type" k).
  - injection Ec as ->. apply (Hrect (k, c)). now left.
  - apply IH; [exact Ec|]. intros kc Hin. apply Hrect. now right.
Qed.

Lemma message_distribution_counts_witness :
  let data := [("contact", ObjectCol ["a"; "b"; "b"]);
               ("type", ObjectCol ["incoming"; "outgoing"; "incoming"])] in
  exists types,
    get_message_distribution data
    = (data, inr (Distribution types (n_rows data)))
    /\ (sum_counts types <= 3)%nat.
Proof.
  intro data.
  pose proof (message_distribution_counts data) as H. cbn in H.
  destruct H as (types & H1 & _ & _ & _ & H5).
  exists types. split; [exact H1|].
  apply H5. repeat constructor.
Defined.

End AnalyticsProperties.

(** ** The endpoints *)

Lemma endswith_tail (s suffix : string) :
  App.endswith s suffix = true <-> exists stem, s = (stem ++ suffix)%string.
Proof.
  induction s as [|a s IH]; cbn [App.endswith].
  - destruct (String.eqb_spec "" suffix) as [<-|Hne].
    + split; [now exists ""|reflexivity].
    + split; [discriminate|]. intros [stem E].
      destruct stem; cbv [String.append] in E; [congruence|discriminate].
  - destruct (String.eqb_spec (String a s) suffix) as [<-|Hne].
    + split; [now exists ""|reflexivity].
    + rewrite IH. split.
      * intros [stem ->]. now exists (String a stem).
      * intros [stem E].
        destruct stem as [|a' stem]; cbv [String.append] in E;
          fold String.append in E; [congruence|].
        injection E as _ ->. now exists stem.
Qed.

(** X18.  Neither handler ever raises anything but an HTTPException of status
    500: the HTTPException(400) raised for a file that is not a CSV is caught
    by the handler's own [except Exception] and raised again as a 500, whose
    detail is the text of the 400; the content of such a file is never
    read. *)
Theorem not_csv_raises_500
        (describe : App.api_exn -> string) (file : App.upload) :
  (forall e, App.upload_signal_data describe file = inl e ->
             exists detail, e = App.HTTPException 500 detail)
  /\ (forall e, App.generate_analytics describe file = inl e ->
                exists detail, e = App.HTTPException 500 detail)
  /\ (forall name,
        App.filename file = Some name ->
        App.endswith name ".csv" = false ->
        let refused :=
          App.HTTPException 500
            (describe (App.HTTPException 400 "Only CSV files are supported")) in
        App.upload_signal_data describe file = inl refused
        /\ App.generate_analytics describe file = inl refused).
Proof.
  split; [|split].
  - unfold App.upload_signal_data, App.guard. intros e.
    destruct (App.csv_only _ _); [|discriminate]. intros [= <-]. eauto.
  - unfold App.generate_analytics, App.guard. intros e.
    destruct (App.csv_only _ _); [|discriminate]. intros [= <-]. eauto.
  - intros name Hn He.
    unfold App.upload_signal_data, App.generate_analytics, App.csv_only.
    now rewrite Hn, He.
Qed.

Lemma not_csv_raises_500_witness :
  let file := App.mk_upload (Some "chats.CSV") (inr []) in
  let describe := fun _ : App.api_exn => "400: Only CSV files are supported" in
  App.upload_signal_data describe file
  = inl (App.HTTPException 500 "400: Only CSV files are supported")
  /\ App.generate_analytics describe file
     = inl (App.HTTPException 500 "400: Only CSV files are supported").
Proof.
  intros file describe.
  apply (proj2 (proj2 (not_csv_raises_500 describe file)) "chats.CSV");
    reflexivity.
Defined.

(** X19.  [upload_signal_data] returns exactly when the file name ends in
    ".csv" (as written: the test is case-sensitive, and the bare name ".csv"
    passes) and the content parses; it then returns the column names in file
    order. *)
Theorem upload_succeeds_on_parsed_csv
        (describe : App.api_exn -> string) (file : App.upload)
        (resp : App.upload_response) :
  App.upload_signal_data describe file = inr resp
  <-> exists stem df,
        App.filename file = Some (stem ++ ".csv")%string
        /\ App.read_csv file = inr df
        /\ resp = App.mk_upload_response "CSV file uploaded successfully"
                                         (map fst df).
Proof.
  unfold App.upload_signal_data, App.guard, App.csv_only. split.
  - destruct (App.filename file) as [name|]; [|discriminate].
    destruct (App.endswith name ".csv") eqn:He; [|discriminate].
    apply endswith_tail in He as [stem ->].
    destruct (App.read_csv file) as [e|df]; [discriminate|].
    intros [= <-]. now exists stem, df.
  - intros (stem & df & Hn & Hr & ->). rewrite Hn, Hr.
    now rewrite (proj2 (endswith_tail _ ".csv") (ex_intro _ stem eq_refl)).
Qed.

Lemma upload_succeeds_on_parsed_csv_witness :
  App.upload_signal_data (fun _ => "")
    (App.mk_upload (Some ".csv")
       (inr [("timestamp", Int64Col []); ("contact", ObjectCol [])]))
  = inr (App.mk_upload_response "CSV file uploaded successfully"
                                ["timestamp"; "contact"]).
Proof.
  apply (upload_succeeds_on_parsed_csv (fun _ => "")
           (App.mk_upload (Some ".csv")
              (inr [("timestamp", Int64Col []); ("contact", ObjectCol [])]))).
  exists "", [("timestamp", Int64Col []); ("contact", ObjectCol [])].
  repeat split.
Defined.






